(** * Practice-Track: replication of media items with their tempo map

    A shallow embedding of [PTKmodules/PTKclasses.py] (the ReaScript that
    replicates the media items of a track together with their tempo / time
    signature markers) and of the input dialog of [PTKmodules/PTKutils.py],
    and the properties of the layout algorithm.

    Modelling conventions.
    - Python [float] values (times in seconds, beats, tempi) are exact
      rationals [Qc]; rounding, infinities and NaN of binary64 are not
      modelled.  A float division by zero raises [ZeroDivisionError] as in
      Python.
    - Python [int] values are [Z]; [range n] is [py_range n].
    - A Python [dict] keyed by time positions is a [gmap Qc _].
    - Reaper references ([MediaItem*], [MediaTrack*]) are integers.
    - The keys of the dictionary of [userInputs] come in the order
      [ndups], [nbetween] (the order of CPython 2 for these two keys, and
      the order of insertion); the type names in the captions of the dialog
      are those of Python 2.
    - The host (Reaper) is a record of oracles.  Every call that changes the
      project is appended to a trace; every answer of the host may depend on
      the trace of the calls made so far.
    - Exceptions are values of [Exn]; a computation is a function from the
      trace so far to the new trace and either an exception or a result.
    - Console logging ([dbg], [dump], [RunTimer]) does not touch the project
      and is left out. *)

From Stdlib Require Import QArith Qcanon Qround ZArith Ascii.
From stdpp Require Import gmap list sorting numbers strings pretty.

Local Open Scope Z_scope.

(** ** Python values *)

(** [range(n)] for an integer [n]: empty when [n <= 0]. *)
Definition py_range (n : Z) : list Z := Z.of_nat <$> seq 0 (Z.to_nat n).

(** The float literals of the source. *)
Definition f0_001 : Qc := Q2Qc (1 # 1000).
Definition f60 : Qc := Q2Qc (60 # 1).
Definition f0 : Qc := Q2Qc (0 # 1).

Inductive Exn : Set :=
  | IndexError
  | ValueError
  | AssertionError
  | ZeroDivisionError
  | AttributeError.

Global Instance Exn_eq_dec : EqDecision Exn.
Proof. solve_decision. Defined.

(** ** The host interface *)

Definition MediaItem := Z.
Definition MediaTrack := Z.

(** The calls of [reaper_python] that change the project or the UI. *)
Inductive HostCall : Type :=
  | RPR_PreventUIRefresh (prevent_count : Z)
  | RPR_DeleteTempoTimeSigMarker (project markerindex : Z)
  | RPR_SelectAllMediaItems (proj : Z) (selected : bool)
  | RPR_SetMediaItemSelected (item : MediaItem) (selected : bool)
  | RPR_SetMediaItemInfo_Value (item : MediaItem) (parmname : string)
      (newvalue : Qc)
  | RPR_ApplyNudge (project nudgeflag nudgewhat nudgeunits : Z) (value : Qc)
      (reverse : bool) (copies : Z)
  | RPR_SetTempoTimeSigMarker (proj ptidx : Z) (timepos : Qc)
      (measurepos : Z) (beatpos : Qc) (bpm : Qc)
      (timesig_num timesig_denom : Z) (lineartempo : bool)
  | RPR_UpdateArrange.

Definition Trace := list HostCall.

(** The list returned by [RPR_GetTempoTimeSigMarker]. *)
Record GetTempoTimeSigMarkerRet := {
  gm_retval : bool;
  gm_proj : Z;
  gm_ptidx : Z;
  gm_timepos : Qc;
  gm_measurepos : Z;
  gm_beatpos : Qc;
  gm_bpm : Qc;
  gm_timesig_num : Z;
  gm_timesig_denom : Z;
  gm_lineartempo : bool
}.

(** The entries of the list returned by [RPR_TimeMap2_timeToBeats] that the
    script reads: [retlist[0]], [retlist[4]] and [retlist[6]]. *)
Record TimeToBeatsRet := {
  tb_retval : Qc;
  tb_cml : Z;
  tb_cdenom : Z
}.

Record Host := {
  (** [RPR_GetUserInputs(title, num_inputs, captions_csv, retvals_csv,
      retvals_csv_sz)]: entries 0 and 4 of the list it returns *)
  GetUserInputs : Trace -> string -> Z -> string -> string -> Z
                  -> bool * string;
  CountTempoTimeSigMarkers : Trace -> Z -> Z;
  GetTempoTimeSigMarker : Trace -> Z -> Z -> GetTempoTimeSigMarkerRet;
  CountSelectedMediaItems : Trace -> Z -> Z;
  GetSelectedMediaItem : Trace -> Z -> Z -> MediaItem;
  GetMediaItemInfo_Value : Trace -> MediaItem -> string -> Qc;
  TimeMap2_timeToBeats : Trace -> Z -> Qc -> TimeToBeatsRet;
  TimeMap2_GetDividedBpmAtTime : Trace -> Z -> Qc -> Qc;
  GetMediaItem_Track : Trace -> MediaItem -> MediaTrack;
  CountTrackMediaItems : Trace -> MediaTrack -> Z;
  GetTrackMediaItem : Trace -> MediaTrack -> Z -> MediaItem;
  (** the success flag returned by [RPR_SetTempoTimeSigMarker] *)
  SetTempoTimeSigMarker_ret : Trace -> HostCall -> bool
}.

(** ** Computations: trace passing with exceptions *)

Definition M (A : Type) : Type := Trace -> Trace * (Exn + A).

Definition ret {A} (a : A) : M A := fun tr => (tr, inr a).
Definition raise {A} (e : Exn) : M A := fun tr => (tr, inl e).
Definition bind {A B} (c : M A) (k : A -> M B) : M B :=
  fun tr =>
    match c tr with
    | (tr', inl e) => (tr', inl e)
    | (tr', inr a) => k a tr'
    end.

(** Ask the host a question: the trace is unchanged. *)
Definition ask {A} (f : Trace -> A) : M A := fun tr => (tr, inr (f tr)).
(** Make a call that changes the project: the call is logged. *)
Definition call (c : HostCall) : M unit := fun tr => (tr ++ [c], inr tt).

Declare Scope py_scope.
Delimit Scope py_scope with py.
Notation "x <- c ;; k" := (bind c (fun x => k))
  (at level 100, c at next level, right associativity) : py_scope.
Notation "c ;;; k" := (bind c (fun _ => k))
  (at level 100, right associativity) : py_scope.
Local Open Scope py_scope.

(** [for x in l: s = body(x, s)] *)
Fixpoint for_each {A St} (l : list A) (body : A -> St -> M St) (s : St)
    : M St :=
  match l with
  | [] => ret s
  | x :: l' => s' <- body x s;; for_each l' body s'
  end.

(** [[f(x) for x in l]] with a fallible [f] *)
Fixpoint for_list {A B} (l : list A) (f : A -> M B) : M (list B) :=
  match l with
  | [] => ret []
  | x :: l' => y <- f x;; ys <- for_list l' f;; ret (y :: ys)
  end.

(** Float division. *)
Definition fdiv (x y : Qc) : M Qc :=
  if decide (y = f0) then raise ZeroDivisionError else ret (x / y)%Qc.

(** ** PTKutils: the input dialog *)

Module PTKutils.

(** [s.split(',')]: the fields between the commas; one empty field for the
    empty string. *)
Fixpoint split_comma (s : string) : list string :=
  match s with
  | EmptyString => [EmptyString]
  | String a s' =>
      if bool_decide (a = ","%char) then EmptyString :: split_comma s'
      else match split_comma s' with
           | x :: xs => String a x :: xs
           | [] => [String a EmptyString]
           end
  end.

(** [",".join(l)] *)
Fixpoint join_comma (l : list string) : string :=
  match l with
  | [] => ""
  | [x] => x
  | x :: l' => x +:+ "," +:+ join_comma l'
  end.

Definition is_space (a : ascii) : bool :=
  bool_decide (a ∈ [" "; "009"; "010"; "011"; "012"; "013"]%char).

Fixpoint lstrip (s : string) : string :=
  match s with
  | String a s' => if is_space a then lstrip s' else s
  | EmptyString => EmptyString
  end.

Definition strip (s : string) : string :=
  String.rev (lstrip (String.rev (lstrip s))).

Definition digit (a : ascii) : option Z :=
  let n := Z.of_N (N_of_ascii a) in
  if bool_decide (48 <= n <= 57) then Some (n - 48) else None.

(** The value of a string of decimal digits after the prefix of value
    [acc]; [None] when a character is not a digit. *)
Fixpoint digits (acc : Z) (s : string) : option Z :=
  match s with
  | EmptyString => Some acc
  | String a s' =>
      match digit a with
      | Some d => digits (10 * acc + d) s'
      | None => None
      end
  end.

(** [int(s)] for a string [s]: surrounding white space, an optional sign
    and at least one decimal digit; [None] stands for [ValueError]. *)
Definition int (s : string) : option Z :=
  match strip s with
  | EmptyString => None
  | String "-" (String _ _ as ds) => Z.opp <$> digits 0 ds
  | String "+" (String _ _ as ds) => digits 0 ds
  | ds => digits 0 ds
  end.

(** A [Map] whose values are integers, in the order of its keys. *)
Definition Map := list (string * Z).

(** [m.get(key)], which is what the attribute access [m.key] returns. *)
Definition get (m : Map) (key : string) : option Z :=
  snd <$> head (filter (fun kv => kv.1 = key) m).

(** [m[key] = v] for a key of the map. *)
Definition setitem (m : Map) (key : string) (v : Z) : Map :=
  (fun kv => if bool_decide (kv.1 = key) then (key, v) else kv) <$> m.

(** What [userInputs] returns: [None] when the dialog is cancelled,
    [False] when a field cannot be converted, otherwise the map. *)
Inductive Inputs : Type :=
  | None_
  | False_
  | Map_ (inputs : Map).

(** The loop [for n, t, s in zip(names, types, retval_strings)]; every
    type is [int]. *)
Fixpoint convert (inputs : Map) (fields : list (string * string)) : Inputs :=
  match fields with
  | [] => Map_ inputs
  | (n, s) :: fields' =>
      match int s with
      | Some v => convert (setitem inputs n v) fields'
      | None => False_
      end
  end.

Section Dialog.
Context (h : Host).

(** The call of [RPR_GetUserInputs] made by [userInputs] (lines 28-39):
    its return value and the string of values. *)
Definition dialog (title : string) (inputs : Map) (tr : Trace)
    : bool * string :=
  let names := inputs.*1 in
  let captions := (fun n => n +:+ " <type 'int'>") <$> names in
  let defaults := (fun n => pretty (default 0 (get inputs n))) <$> names in
  let num_inputs := Z.of_nat (length inputs) in
  let csv_sz := num_inputs * 256 in
  GetUserInputs h tr title num_inputs (join_comma captions)
    (join_comma defaults) csv_sz.

(** [userInputs(title, **items)]: lines 14-52, for items that are all
    integers; [items] is the keyword dictionary in the order of its keys. *)
Definition userInputs (title : string) (items : Map) : M Inputs :=
  let inputs := items in
  let names := inputs.*1 in
  result <- ask (dialog title inputs);;
  if negb result.1 then ret None_
  else
    let retvals_csv := result.2 in
    let retval_strings := split_comma retvals_csv in
    ret (convert inputs (zip names retval_strings)).

End Dialog.
End PTKutils.

(** ** class TempoTimeSigMarkerWrapper *)

Module TempoTimeSigMarkerWrapper.

(** The attributes of an instance.  [ptidx] is [None] while the attribute
    has not been assigned (the branch of [__init__] for a negative index
    never assigns it); [retval] is Python's [None] until a host call
    stores its result. *)
Record t := {
  deferred : bool;
  retval : option bool;
  proj : Z;
  ptidx : option Z;
  timepos : Qc;
  measurepos : Z;
  beatpos : Qc;
  bpm : Qc;
  timesig_num : Z;
  timesig_denom : Z;
  lineartempo : bool
}.

Global Instance t_inhabited : Inhabited t :=
  populate {| deferred := false; retval := None; proj := 0; ptidx := None;
              timepos := f0; measurepos := 0; beatpos := f0; bpm := f0;
              timesig_num := 0; timesig_denom := 0; lineartempo := false |}.

(** Reading [self.ptidx]. *)
Definition get_ptidx (self : t) : M Z :=
  match ptidx self with
  | Some p => ret p
  | None => raise AttributeError
  end.

Section Methods.
Context (h : Host).

(** [create(self)]: lines 247-263. *)
Definition create (self : t) : M unit :=
  let c := RPR_SetTempoTimeSigMarker (proj self) (-1) (timepos self)
             (measurepos self) (beatpos self) (bpm self)
             (timesig_num self) (timesig_denom self) (lineartempo self) in
  ok <- ask (fun tr => SetTempoTimeSigMarker_ret h tr c);;
  call c;;;
  if negb ok then raise ValueError else ret tt.

(** [initByIdSearch(self, proj, ptidx)]: lines 265-288. *)
Definition initByIdSearch (self : t) (proj_ ptidx_ : Z) : M t :=
  retlist <- ask (fun tr => GetTempoTimeSigMarker h tr proj_ ptidx_);;
  ret {| deferred := deferred self;
         retval := Some (gm_retval retlist);
         proj := gm_proj retlist;
         ptidx := Some (gm_ptidx retlist);
         timepos := gm_timepos retlist;
         measurepos := gm_measurepos retlist;
         beatpos := gm_beatpos retlist;
         bpm := gm_bpm retlist;
         timesig_num := gm_timesig_num retlist;
         timesig_denom := gm_timesig_denom retlist;
         lineartempo := gm_lineartempo retlist |}.

(** [__init__(self, proj, ptidx, timepos=0.0, bpm=0.0, num=0, denom=0)]:
    lines 226-245.  The argument [ptidx_] is [None] for Python's
    [None]. *)
Definition init (proj_ : Z) (ptidx_ : option Z) (timepos_ bpm_ : Qc)
    (num denom : Z) : M t :=
  let self := {| deferred := false; retval := None; proj := proj_;
                 ptidx := None; timepos := timepos_; measurepos := -1;
                 beatpos := Qc_of_Z (-1); bpm := bpm_;
                 timesig_num := num; timesig_denom := denom;
                 lineartempo := false |} in
  match ptidx_ with
  | None =>
      ret {| deferred := true; retval := retval self; proj := proj self;
             ptidx := Some (-1); timepos := timepos self;
             measurepos := measurepos self; beatpos := beatpos self;
             bpm := bpm self; timesig_num := timesig_num self;
             timesig_denom := timesig_denom self;
             lineartempo := lineartempo self |}
  | Some p =>
      if 0 <=? p then initByIdSearch self proj_ p
      else create self;;; ret self
  end.

(** [set(self, use_timepos=True)]: lines 303-318. *)
Definition set (self : t) (use_timepos : bool) : M t :=
  let '(timepos_, measurepos_, beatpos_) :=
    if use_timepos then (timepos self, -1, Qc_of_Z (-1))
    else (Qc_of_Z (-1), measurepos self, beatpos self) in
  p <- get_ptidx self;;
  let c := RPR_SetTempoTimeSigMarker (proj self) p timepos_ measurepos_
             beatpos_ (bpm self) (timesig_num self) (timesig_denom self)
             (lineartempo self) in
  r <- ask (fun tr => SetTempoTimeSigMarker_ret h tr c);;
  call c;;;
  ret {| deferred := deferred self; retval := Some r; proj := proj self;
         ptidx := ptidx self; timepos := timepos self;
         measurepos := measurepos self; beatpos := beatpos self;
         bpm := bpm self; timesig_num := timesig_num self;
         timesig_denom := timesig_denom self;
         lineartempo := lineartempo self |}.

(** [clone(self, time_value, is_offset=True, deferred=False)]:
    lines 320-354. *)
Definition clone (self : t) (time_value : Qc) (is_offset deferred_ : bool)
    : M t :=
  p <- get_ptidx self;;
  cloned <- init (proj self) (Some p) f0 f0 0 0;;
  let cloned_timepos :=
    if is_offset then (timepos self + time_value)%Qc else time_value in
  let cloned :=
    {| deferred := deferred cloned; retval := retval cloned;
       proj := proj cloned; ptidx := Some (-1);
       timepos := cloned_timepos; measurepos := measurepos cloned;
       beatpos := beatpos cloned; bpm := bpm self;
       timesig_num := timesig_num self;
       timesig_denom := timesig_denom self;
       lineartempo := lineartempo self |} in
  if negb (bool_decide (f0 <= timepos cloned)%Qc) then raise AssertionError
  else if negb deferred_ then set cloned true
  else ret cloned.

(** [remove(self)]: lines 356-365.  The value returned by the host is
    only logged. *)
Definition remove (self : t) : M unit :=
  p <- get_ptidx self;;
  call (RPR_DeleteTempoTimeSigMarker (proj self) p).

End Methods.
End TempoTimeSigMarkerWrapper.

(** ** Redundant signatures *)

(** [equivalentSigs(sig1, sig2)]: lines 643-650. *)
Definition equivalentSigs (sig1 sig2 : TempoTimeSigMarkerWrapper.t) : bool :=
  bool_decide (TempoTimeSigMarkerWrapper.bpm sig1
               = TempoTimeSigMarkerWrapper.bpm sig2)
  && bool_decide (TempoTimeSigMarkerWrapper.timesig_num sig1
                  = TempoTimeSigMarkerWrapper.timesig_num sig2)
  && bool_decide (TempoTimeSigMarkerWrapper.timesig_denom sig1
                  = TempoTimeSigMarkerWrapper.timesig_denom sig2)
  && bool_decide (TempoTimeSigMarkerWrapper.lineartempo sig1
                  = TempoTimeSigMarkerWrapper.lineartempo sig2).

Global Instance Qc_inhabited : Inhabited Qc := populate f0.

(** [enumerate(l)] *)
Definition enumerate {A} (l : list A) : list (nat * A) :=
  zip (seq 0 (length l)) l.

(** [sorted(l, reverse=True)] on time positions. *)
Definition sorted_reverse (l : list Qc) : list Qc := merge_sort (flip Qcle) l.

(** [getNonRedundantSigTimes(sigd)]: lines 653-674.  The subscripts
    [sigtimes_r[i]], [sigtimes_r[i+1]] and [sigd[...]] are total lookups:
    they are always in range (see [getNonRedundantSigTimes_lookups]). *)
Definition getNonRedundantSigTimes
    (sigd : gmap Qc TempoTimeSigMarkerWrapper.t) : list Qc :=
  let sigtimes_r := sorted_reverse (elements (dom sigd)) in
  foldl (fun nrkeys '(i, t) =>
           let current := sigd !!! (sigtimes_r !!! i) in
           let previous := sigd !!! (sigtimes_r !!! (i + 1)%nat) in
           if negb (equivalentSigs previous current) then t :: nrkeys
           else nrkeys)
        [] (enumerate (take (length sigtimes_r - 1) sigtimes_r)).

Section RemoveRedundant.
Context (h : Host).

(** The loop [while ilast > 0] of [removeRedundantSigs] (lines 695-700),
    entered with the index [ilast]; the subscripts [siglist[ilast]] and
    [siglist[ilast - 1]] are in range whenever [ilast < len(siglist)]. *)
Fixpoint remove_redundant_loop (siglist : list TempoTimeSigMarkerWrapper.t)
    (ilast : nat) : M unit :=
  match ilast with
  | O => ret tt
  | S ilast' =>
      (if equivalentSigs (siglist !!! S ilast') (siglist !!! ilast')
       then TempoTimeSigMarkerWrapper.remove (siglist !!! S ilast')
       else ret tt);;;
      remove_redundant_loop siglist ilast'
  end.

(** [removeRedundantSigs()]: lines 677-700.  The function is defined by the
    script but [run] does not call it. *)
Definition removeRedundantSigs : M unit :=
  nsig <- ask (fun tr => CountTempoTimeSigMarkers h tr 0);;
  let sigids := py_range nsig in
  let proj := 0 in
  siglist <- for_list sigids
               (fun sigid =>
                  TempoTimeSigMarkerWrapper.init h proj (Some sigid)
                    f0 f0 0 0);;
  let ilast := Z.of_nat (length siglist) - 1 in
  remove_redundant_loop siglist (Z.to_nat ilast).

End RemoveRedundant.

(** ** class MediaItemReplicator *)

Module MediaItemReplicator.

Record t := {
  proj : Z;
  iid : MediaItem;
  pos : Qc;
  length : Qc;
  end_ : Qc;
  posbeats : Qc;
  poscml : Z;
  poscdenom : Z;
  posbpm : Qc;
  endbeats : Qc;
  endcml : Z;
  endcdenom : Z;
  endbpm : Qc;
  tempotimesiglist : list TempoTimeSigMarkerWrapper.t;
  intime : Qc;
  outtime : Qc
}.

Abbreviation incount := (gmap Qc TempoTimeSigMarkerWrapper.t).

(** The body of [for sig in self.tempotimesiglist] (lines 533-538) on the
    pair [(itemsigs, insig)]. *)
Definition scan_step (self : t)
    (state : list TempoTimeSigMarkerWrapper.t * TempoTimeSigMarkerWrapper.t)
    (sig : TempoTimeSigMarkerWrapper.t)
    : list TempoTimeSigMarkerWrapper.t * TempoTimeSigMarkerWrapper.t :=
  let '(itemsigs, insig) := state in
  let itemsigs :=
    if bool_decide (pos self <= TempoTimeSigMarkerWrapper.timepos sig)%Qc
       && bool_decide (TempoTimeSigMarkerWrapper.timepos sig
                       < pos self + length self)%Qc
    then itemsigs ++ [sig] else itemsigs in
  let insig :=
    if bool_decide (TempoTimeSigMarkerWrapper.timepos sig
                    <= pos self + f0_001)%Qc
    then sig else insig in
  (itemsigs, insig).

(** Lines 530-538 of [replicate]: the markers inside the item and the marker
    in effect at its start, from the earliest marker [insig0]. *)
Definition scan_sigs (self : t) (insig0 : TempoTimeSigMarkerWrapper.t)
    : list TempoTimeSigMarkerWrapper.t * TempoTimeSigMarkerWrapper.t :=
  foldl (scan_step self) ([], insig0) (tempotimesiglist self).

Section Methods.
Context (h : Host).

(** [__init__(self, proj, itemid, tempotimesiglist, id_is_index=True)]:
    lines 385-481. *)
Definition init (proj_ : Z) (itemid : Z)
    (tempotimesiglist_ : list TempoTimeSigMarkerWrapper.t)
    (id_is_index : bool) : M t :=
  iid_ <- (if id_is_index
           then ask (fun tr => GetSelectedMediaItem h tr proj_ itemid)
           else ret itemid);;
  pos_ <- ask (fun tr => GetMediaItemInfo_Value h tr iid_ "D_POSITION");;
  length_ <- ask (fun tr => GetMediaItemInfo_Value h tr iid_ "D_LENGTH");;
  let end0 := (pos_ + length_)%Qc in
  retlist <- ask (fun tr => TimeMap2_timeToBeats h tr proj_ pos_);;
  let posbeats_ := tb_retval retlist in
  let poscml_ := tb_cml retlist in
  let poscdenom_ := tb_cdenom retlist in
  posbpm_ <- ask (fun tr => TimeMap2_GetDividedBpmAtTime h tr proj_ pos_);;
  retlist <- ask (fun tr => TimeMap2_timeToBeats h tr proj_ end0);;
  endbpm0 <- ask (fun tr => TimeMap2_GetDividedBpmAtTime h tr proj_ end0);;
  nudged <-
    (if bool_decide (tb_retval retlist < f0_001)%Qc then
       let length_ := (length_ - f0_001)%Qc in
       let end1 := (pos_ + length_)%Qc in
       retlist <- ask (fun tr => TimeMap2_timeToBeats h tr proj_ end1);;
       endbpm1 <- ask (fun tr =>
                         TimeMap2_GetDividedBpmAtTime h tr proj_ end1);;
       ret (length_, end1, retlist, endbpm1)
     else ret (length_, end0, retlist, endbpm0));;
  let '(length_, end1, retlist, endbpm_) := nudged in
  let endbeats_ := tb_retval retlist in
  let endcml_ := tb_cml retlist in
  let endcdenom_ := tb_cdenom retlist in
  let intimebeats := posbeats_ in
  secondsperbeat <- fdiv f60 posbpm_;;
  let intime_ := (secondsperbeat * intimebeats)%Qc in
  let outtimebeats := (Qc_of_Z endcml_ - endbeats_)%Qc in
  secondsperbeat <- fdiv f60 endbpm_;;
  let outtime_ := (outtimebeats * secondsperbeat)%Qc in
  ret {| proj := proj_; iid := iid_; pos := pos_; length := length_;
         end_ := end1; posbeats := posbeats_; poscml := poscml_;
         poscdenom := poscdenom_; posbpm := posbpm_;
         endbeats := endbeats_; endcml := endcml_;
         endcdenom := endcdenom_; endbpm := endbpm_;
         tempotimesiglist := tempotimesiglist_;
         intime := intime_; outtime := outtime_ |}.

(** The body of [for sig in itemsigs] (lines 568-570 and 591-593): every
    clone is stored under the key [t]. *)
Definition clone_itemsigs (self : t)
    (itemsigs : list TempoTimeSigMarkerWrapper.t) (t_ : Qc)
    (incountsigd : incount) : M incount :=
  for_each itemsigs
    (fun sig incountsigd =>
       let newpos := t_ in
       cloned <- TempoTimeSigMarkerWrapper.clone h sig (newpos - pos self)%Qc
                   true true;;
       ret (<[t_ := cloned]> incountsigd))
    incountsigd.

(** The lead-in marker of a placement (lines 551-555 and 579-583): a
    deferred wrapper at [t_] with the tempo and signature of [insig]. *)
Definition lead_in (self : t) (insig : TempoTimeSigMarkerWrapper.t)
    (t_ : Qc) : M TempoTimeSigMarkerWrapper.t :=
  TempoTimeSigMarkerWrapper.init h (proj self) None t_
    (TempoTimeSigMarkerWrapper.bpm insig)
    (TempoTimeSigMarkerWrapper.timesig_num insig)
    (TempoTimeSigMarkerWrapper.timesig_denom insig).

(** The body of [for _ in range(ndups)] (lines 577-614) on the loop state
    [(t, incountsigd)]. *)
Definition duplicate (self : t)
    (itemsigs : list TempoTimeSigMarkerWrapper.t)
    (insig : TempoTimeSigMarkerWrapper.t) (betweentime : Qc)
    (_ : Z) (state : Qc * incount) : M (Qc * incount) :=
  let '(t_, incountsigd) := state in
  lead <- lead_in self insig t_;;
  let incountsigd := <[t_ := lead]> incountsigd in
  let t_ := (t_ + (betweentime + intime self))%Qc in
  incountsigd <- clone_itemsigs self itemsigs t_ incountsigd;;
  let nudge := length self in
  let nudge := (nudge + outtime self)%Qc in
  let nudge := (nudge + betweentime)%Qc in
  let nudge := (nudge + intime self)%Qc in
  let fbyvalue := 0 in
  let fduplicate := 5 in
  let fseconds := 1 in
  let freverse := false in
  call (RPR_ApplyNudge (proj self) fbyvalue fduplicate fseconds nudge
          freverse 1);;;
  let t_ := (t_ + (length self + outtime self))%Qc in
  ret (t_, incountsigd).

(** [replicate(self, t0, ndups, nbetween=0)]: lines 500-623. *)
Definition replicate (self : t) (t0 : Qc) (ndups nbetween : Z)
    : M (Qc * incount) :=
  insig0 <- match tempotimesiglist self with
            | [] => raise IndexError
            | sig :: _ => ret sig
            end;;
  let itemsigs := (scan_sigs self insig0).1 in
  let insig := (scan_sigs self insig0).2 in
  let incountsigd : incount := ∅ in
  call (RPR_SetMediaItemSelected (iid self) true);;;
  let t_ := t0 in
  lead <- lead_in self insig t_;;
  let incountsigd := <[t_ := lead]> incountsigd in
  betweentime <- fdiv (Qc_of_Z (nbetween * poscml self) * f60)%Qc
                   (posbpm self);;
  let t_ := (t_ + (betweentime + intime self))%Qc in
  (if bool_decide (pos self < t_)%Qc
   then call (RPR_SetMediaItemInfo_Value (iid self) "D_POSITION" t_)
   else ret tt);;;
  incountsigd <- clone_itemsigs self itemsigs t_ incountsigd;;
  let t_ := (t_ + length self)%Qc in
  let t_ := (t_ + outtime self)%Qc in
  state <- for_each (py_range ndups)
             (duplicate self itemsigs insig betweentime)
             (t_, incountsigd);;
  let '(t_, incountsigd) := state in
  call (RPR_SetMediaItemSelected (iid self) false);;;
  ret (t_, incountsigd).

End Methods.
End MediaItemReplicator.

(** ** The toplevel function *)

(** The ways [run] comes to an end without an exception: its five early
    [return] statements (lines 33, 36, 39, 42 and 110), which all precede
    [RPR_PreventUIRefresh(1)], and the end of its body. *)
Inductive RunExit : Set :=
  | DialogCancelled
  | BadInput
  | NegativeDuplicates
  | NegativeBetween
  | UsageError
  | Completed.

Section Run.
Context (h : Host).

(** Lines 135-204 of [run]: from the suspension of the UI refresh on. *)
Definition run_replicate (siglist : list TempoTimeSigMarkerWrapper.t)
    (trackitems : list MediaItemReplicator.t) (selectediids : list MediaItem)
    (ndups nbetween : Z) : M RunExit :=
  call (RPR_PreventUIRefresh 1);;;
  for_each (reverse siglist)
    (fun sig _ => TempoTimeSigMarkerWrapper.remove sig) tt;;;
  call (RPR_SelectAllMediaItems 0 false);;;
  let endt := f0 in
  let incountsigd : MediaItemReplicator.incount := ∅ in
  state <-
    for_each trackitems
      (fun item '(endt, incountsigd) =>
         r <- (if bool_decide (MediaItemReplicator.iid item ∈ selectediids)
               then MediaItemReplicator.replicate h item endt ndups nbetween
               else MediaItemReplicator.replicate h item endt 0 nbetween);;
         let '(endt, _incountsigd) := r in
         ret (endt, _incountsigd ∪ incountsigd))
      (endt, incountsigd);;
  let '(endt, incountsigd) := state in
  let sigtimes := getNonRedundantSigTimes incountsigd in
  for_each sigtimes
    (fun t_ _ => TempoTimeSigMarkerWrapper.create h (incountsigd !!! t_)) tt;;;
  call (RPR_PreventUIRefresh (-1));;;
  call RPR_UpdateArrange;;;
  ret Completed.

(** Lines 59-129 of [run]: the snapshot of the markers and of the items. *)
Definition run_gather (ndups nbetween : Z) : M RunExit :=
  nsig <- ask (fun tr => CountTempoTimeSigMarkers h tr 0);;
  let sigids := py_range nsig in
  let proj := 0 in
  siglist <- for_list sigids
               (fun sigid =>
                  TempoTimeSigMarkerWrapper.init h proj (Some sigid)
                    f0 f0 0 0);;
  nitems <- ask (fun tr => CountSelectedMediaItems h tr 0);;
  let itemids := py_range nitems in
  items <- for_list itemids
             (fun itemid => MediaItemReplicator.init h proj itemid siglist
                              true);;
  let selectediids := MediaItemReplicator.iid <$> items in
  tracks <- for_list items
              (fun i => ask (fun tr => GetMediaItem_Track h tr
                                         (MediaItemReplicator.iid i)));;
  if negb (bool_decide (size (list_to_set tracks : gset MediaTrack) = 1%nat))
  then ret UsageError
  else
    track <- match tracks with
             | [] => raise IndexError
             | track :: _ => ret track
             end;;
    ntrackitems <- ask (fun tr => CountTrackMediaItems h tr track);;
    trackitems <- for_list (py_range ntrackitems)
                    (fun titemid =>
                       itemref <- ask (fun tr =>
                                         GetTrackMediaItem h tr track titemid);;
                       MediaItemReplicator.init h proj itemref siglist false);;
    run_replicate siglist trackitems selectediids ndups nbetween.

(** [run()]: lines 14-204.  The attribute [uin.ndups] is
    [uin.get('ndups')], which is [None] for a missing key, and in Python 2
    [None < 0] holds. *)
Definition run : M RunExit :=
  uin <- PTKutils.userInputs h "Parameters" [("ndups", 1); ("nbetween", 1)];;
  match uin with
  | PTKutils.None_ => ret DialogCancelled
  | PTKutils.False_ => ret BadInput
  | PTKutils.Map_ uin =>
      match PTKutils.get uin "ndups" with
      | None => ret NegativeDuplicates
      | Some ndups =>
          if bool_decide (ndups < 0) then ret NegativeDuplicates
          else match PTKutils.get uin "nbetween" with
               | None => ret NegativeBetween
               | Some nbetween =>
                   if bool_decide (nbetween < 0) then ret NegativeBetween
                   else run_gather ndups nbetween
               end
      end
  end.

End Run.

(** * Specification vocabulary *)

(** [emits P c]: [c] only extends the trace, by calls that satisfy [P]. *)
Definition emits {A} (P : HostCall -> Prop) (c : M A) : Prop :=
  forall tr tr' r, c tr = (tr', r) ->
    exists calls, tr' = tr ++ calls /\ Forall P calls.

(** [silent c]: [c] makes no call. *)
Definition silent {A} (c : M A) : Prop :=
  forall tr tr' r, c tr = (tr', r) -> tr' = tr.

(** The UI refresh counter of the host after the calls of a trace:
    [RPR_PreventUIRefresh] is depth counted. *)
Definition refresh_depth (tr : Trace) : Z :=
  foldr (fun c d => match c with
                    | RPR_PreventUIRefresh n => n + d
                    | _ => d
                    end) 0 tr.

Definition is_PreventUIRefresh (c : HostCall) : Prop :=
  match c with RPR_PreventUIRefresh _ => True | _ => False end.

(** The value returned by a computation, if it returns one. *)
Definition returned {A} (x : Trace * (Exn + A)) : option A :=
  match x.2 with inr a => Some a | inl _ => None end.

(** The exception raised by a computation, if it raises one. *)
Definition raised {A} (x : Trace * (Exn + A)) : option Exn :=
  match x.2 with inl e => Some e | inr _ => None end.

(** Reading the fields of the dialog by position: the [i]-th field is
    converted for the [i]-th key; a key without a field keeps its value and
    a field without a key is ignored; [None] when a field that is read
    cannot be converted. *)
Fixpoint read_fields (items : PTKutils.Map) (fields : list string)
    : option PTKutils.Map :=
  match items, fields with
  | (n, v) :: items', s :: fields' =>
      match PTKutils.int s with
      | Some v' => cons (n, v') <$> read_fields items' fields'
      | None => None
      end
  | _, _ => Some items
  end.

(** * Example projects

    A project in one steady tempo and time signature, enough to run the
    script on concrete inputs.  Deleting a marker re-indexes the later
    ones; the host accepts or rejects every new marker as
    [prj_accepts_markers] says. *)

Definition qc (n : Z) (d : positive) : Qc := Q2Qc (n # d).

Record Project := {
  (** what the user does with the dialog: [false] to cancel it, or [true]
      and the values typed into the fields *)
  prj_dialog : bool * string;
  prj_markers : list GetTempoTimeSigMarkerRet;
  (** reference, track, position and length of every item *)
  prj_items : list (MediaItem * MediaTrack * Qc * Qc);
  prj_selected : list MediaItem;
  prj_bpm : Qc;
  prj_num : Z;
  prj_denom : Z;
  prj_accepts_markers : bool
}.

Definition marker_at (idx : Z) (tp bpm_ : Qc) (num denom : Z)
    : GetTempoTimeSigMarkerRet :=
  {| gm_retval := true; gm_proj := 0; gm_ptidx := idx; gm_timepos := tp;
     gm_measurepos := 0; gm_beatpos := f0; gm_bpm := bpm_;
     gm_timesig_num := num; gm_timesig_denom := denom;
     gm_lineartempo := false |}.

Definition markers_after (markers : list GetTempoTimeSigMarkerRet)
    (tr : Trace) : list GetTempoTimeSigMarkerRet :=
  foldl (fun ms c =>
           match c with
           | RPR_DeleteTempoTimeSigMarker _ i =>
               if bool_decide (0 <= i) then delete (Z.to_nat i) ms else ms
           | _ => ms
           end) markers tr.

Definition steady_timeToBeats (bpm_ : Qc) (num denom : Z) (tpos : Qc)
    : TimeToBeatsRet :=
  let fullbeats := (tpos * bpm_ / f60)%Qc in
  let measures := Qfloor (this (fullbeats / Qc_of_Z num)%Qc) in
  {| tb_retval := (fullbeats - Qc_of_Z (measures * num))%Qc;
     tb_cml := num; tb_cdenom := denom |}.

Definition host_of (p : Project) : Host :=
  let items_of trk :=
    filter (fun it => it.1.1.2 = trk) (prj_items p) in
  let item_info iid :=
    default (0, 0, f0, f0) (head (filter (fun it => it.1.1.1 = iid)
                                         (prj_items p))) in
  {| GetUserInputs := fun _ _ _ _ _ _ => prj_dialog p;
     CountTempoTimeSigMarkers := fun tr _ =>
       Z.of_nat (length (markers_after (prj_markers p) tr));
     GetTempoTimeSigMarker := fun tr proj_ idx =>
       default {| gm_retval := false; gm_proj := proj_; gm_ptidx := idx;
                  gm_timepos := f0; gm_measurepos := 0; gm_beatpos := f0;
                  gm_bpm := f0; gm_timesig_num := 0; gm_timesig_denom := 0;
                  gm_lineartempo := false |}
               (markers_after (prj_markers p) tr !! Z.to_nat idx);
     CountSelectedMediaItems := fun _ _ =>
       Z.of_nat (length (prj_selected p));
     GetSelectedMediaItem := fun _ _ i =>
       default 0 (prj_selected p !! Z.to_nat i);
     GetMediaItemInfo_Value := fun _ iid parmname =>
       if bool_decide (parmname = "D_POSITION") then (item_info iid).1.2
       else if bool_decide (parmname = "D_LENGTH") then (item_info iid).2
       else f0;
     TimeMap2_timeToBeats := fun _ _ tpos =>
       steady_timeToBeats (prj_bpm p) (prj_num p) (prj_denom p) tpos;
     TimeMap2_GetDividedBpmAtTime := fun _ _ _ => prj_bpm p;
     GetMediaItem_Track := fun _ iid => (item_info iid).1.1.2;
     CountTrackMediaItems := fun _ trk => Z.of_nat (length (items_of trk));
     GetTrackMediaItem := fun _ trk i =>
       default 0 ((fun it => it.1.1.1) <$> items_of trk !! Z.to_nat i);
     SetTempoTimeSigMarker_ret := fun _ _ => prj_accepts_markers p |}.

(** One item of four seconds at 4.0 s on track 1, selected, in 4/4 at
    120 bpm; a marker at 0.0 s (120 bpm) and one inside the item at 6.0 s
    (100 bpm). *)
Definition project1 (dialog : bool * string) (accepts : bool) : Project :=
  {| prj_dialog := dialog;
     prj_markers := [marker_at 0 f0 (qc 120 1) 4 4;
                     marker_at 1 (qc 6 1) (qc 100 1) 4 4];
     prj_items := [(7, 1, qc 4 1, qc 4 1)];
     prj_selected := [7];
     prj_bpm := qc 120 1; prj_num := 4; prj_denom := 4;
     prj_accepts_markers := accepts |}.

(** The same project in a host that reports the tempo zero. *)
Definition project_zero_tempo : Project :=
  {| prj_dialog := (true, "1,1");
     prj_markers := [marker_at 0 f0 f0 4 4];
     prj_items := [(7, 1, qc 4 1, qc 4 1)];
     prj_selected := [7];
     prj_bpm := f0; prj_num := 4; prj_denom := 4;
     prj_accepts_markers := true |}.

(** The project [project1] without its markers. *)
Definition project_no_markers : Project :=
  {| prj_dialog := (true, "1,1");
     prj_markers := [];
     prj_items := [(7, 1, qc 4 1, qc 4 1)];
     prj_selected := [7];
     prj_bpm := qc 120 1; prj_num := 4; prj_denom := 4;
     prj_accepts_markers := true |}.

(** Two selected items on two tracks. *)
Definition project_two_tracks : Project :=
  {| prj_dialog := (true, "1,1");
     prj_markers := [marker_at 0 f0 (qc 120 1) 4 4];
     prj_items := [(7, 1, qc 4 1, qc 4 1); (8, 2, qc 4 1, qc 4 1)];
     prj_selected := [7; 8];
     prj_bpm := qc 120 1; prj_num := 4; prj_denom := 4;
     prj_accepts_markers := true |}.

(** A host whose dialog is accepted as it is shown: it returns the
    default values that it was given. *)
Definition echo_host : Host :=
  let h := host_of (project1 (true, "") true) in
  {| GetUserInputs := fun _ _ _ _ retvals_csv _ => (true, retvals_csv);
     CountTempoTimeSigMarkers := CountTempoTimeSigMarkers h;
     GetTempoTimeSigMarker := GetTempoTimeSigMarker h;
     CountSelectedMediaItems := CountSelectedMediaItems h;
     GetSelectedMediaItem := GetSelectedMediaItem h;
     GetMediaItemInfo_Value := GetMediaItemInfo_Value h;
     TimeMap2_timeToBeats := TimeMap2_timeToBeats h;
     TimeMap2_GetDividedBpmAtTime := TimeMap2_GetDividedBpmAtTime h;
     GetMediaItem_Track := GetMediaItem_Track h;
     CountTrackMediaItems := CountTrackMediaItems h;
     GetTrackMediaItem := GetTrackMediaItem h;
     SetTempoTimeSigMarker_ret := SetTempoTimeSigMarker_ret h |}.

(** The wrapper that [TempoTimeSigMarkerWrapper(proj, idx)] builds for the
    marker [marker_at idx tp bpm num denom]. *)
Definition wrapper_at (idx : Z) (tp bpm_ : Qc) (num denom : Z)
    : TempoTimeSigMarkerWrapper.t :=
  {| TempoTimeSigMarkerWrapper.deferred := false;
     TempoTimeSigMarkerWrapper.retval := Some true;
     TempoTimeSigMarkerWrapper.proj := 0;
     TempoTimeSigMarkerWrapper.ptidx := Some idx;
     TempoTimeSigMarkerWrapper.timepos := tp;
     TempoTimeSigMarkerWrapper.measurepos := 0;
     TempoTimeSigMarkerWrapper.beatpos := f0;
     TempoTimeSigMarkerWrapper.bpm := bpm_;
     TempoTimeSigMarkerWrapper.timesig_num := num;
     TempoTimeSigMarkerWrapper.timesig_denom := denom;
     TempoTimeSigMarkerWrapper.lineartempo := false |}.

(** An item of four seconds at 4.0 s, on a measure start in 4/4 at 120 bpm
    ([intime = 0], [outtime = 0]), with the marker list [siglist]. *)
Definition item_at_4 (siglist : list TempoTimeSigMarkerWrapper.t)
    : MediaItemReplicator.t :=
  {| MediaItemReplicator.proj := 0; MediaItemReplicator.iid := 7;
     MediaItemReplicator.pos := qc 4 1; MediaItemReplicator.length := qc 4 1;
     MediaItemReplicator.end_ := qc 8 1;
     MediaItemReplicator.posbeats := f0; MediaItemReplicator.poscml := 4;
     MediaItemReplicator.poscdenom := 4;
     MediaItemReplicator.posbpm := qc 120 1;
     MediaItemReplicator.endbeats := qc 4 1; MediaItemReplicator.endcml := 4;
     MediaItemReplicator.endcdenom := 4;
     MediaItemReplicator.endbpm := qc 120 1;
     MediaItemReplicator.tempotimesiglist := siglist;
     MediaItemReplicator.intime := f0; MediaItemReplicator.outtime := f0 |}.

(** Markers at 0.0 s (120 bpm, 4/4), at 4.0 s (100 bpm) and at 6.0 s
    (90 bpm, 3/4). *)
Definition sig_0 := wrapper_at 0 f0 (qc 120 1) 4 4.
Definition sig_4 := wrapper_at 1 (qc 4 1) (qc 100 1) 4 4.
Definition sig_5 := wrapper_at 1 (qc 5 1) (qc 100 1) 4 4.
Definition sig_6 := wrapper_at 2 (qc 6 1) (qc 90 1) 3 4.

(** The loop of [getNonRedundantSigTimes] by recursion on the list of keys:
    the keys whose marker differs from the marker under the next key of the
    list, in the order of the list. *)
Fixpoint differing_from_next (sigd : gmap Qc TempoTimeSigMarkerWrapper.t)
    (l : list Qc) : list Qc :=
  match l with
  | t_ :: ((t' :: _) as l') =>
      if negb (equivalentSigs (sigd !!! t') (sigd !!! t_))
      then t_ :: differing_from_next sigd l'
      else differing_from_next sigd l'
  | _ => []
  end.

(** [t'] is the key that comes just before [t_] in a marker map. *)
Definition is_predecessor (sigd : gmap Qc TempoTimeSigMarkerWrapper.t)
    (t' t_ : Qc) : Prop :=
  t' ∈ dom sigd /\ (t' < t_)%Qc /\
  forall u, u ∈ dom sigd -> (u < t_)%Qc -> (u <= t')%Qc.

(** A marker map restricted to a list of keys. *)
Definition restrict_to (keys : list Qc)
    (sigd : gmap Qc TempoTimeSigMarkerWrapper.t)
    : gmap Qc TempoTimeSigMarkerWrapper.t :=
  filter (fun kv => kv.1 ∈ keys) sigd.


Definition is_interior (self : MediaItemReplicator.t)
    (sig : TempoTimeSigMarkerWrapper.t) : Prop :=
  (MediaItemReplicator.pos self <= TempoTimeSigMarkerWrapper.timepos sig)%Qc
  /\ (TempoTimeSigMarkerWrapper.timepos sig
      < MediaItemReplicator.pos self + MediaItemReplicator.length self)%Qc.

#[global] Instance is_interior_dec self sig : Decision (is_interior self sig).
Proof. unfold is_interior. apply _. Defined.

(** The markers in effect at the start of an item: those with
    [timePos <= position + 0.001]. *)
Definition in_effect (self : MediaItemReplicator.t)
    (sig : TempoTimeSigMarkerWrapper.t) : Prop :=
  (TempoTimeSigMarkerWrapper.timepos sig
   <= MediaItemReplicator.pos self + f0_001)%Qc.

#[global] Instance in_effect_dec self sig : Decision (in_effect self sig).
Proof. unfold in_effect. apply _. Defined.



(** The calls that [replicate] may make on an item: it selects and
    unselects the item, moves it, duplicates the selection by a nudge in
    seconds, and creates markers (index [-1]). *)
Definition replicate_call (self : MediaItemReplicator.t) (c : HostCall)
    : Prop :=
  match c with
  | RPR_SetMediaItemSelected item _ => item = MediaItemReplicator.iid self
  | RPR_SetMediaItemInfo_Value item parmname _ =>
      item = MediaItemReplicator.iid self /\ parmname = "D_POSITION"
  | RPR_ApplyNudge project nudgeflag nudgewhat nudgeunits _ reverse copies =>
      project = MediaItemReplicator.proj self /\ nudgeflag = 0 /\
      nudgewhat = 5 /\ nudgeunits = 1 /\ reverse = false /\ copies = 1
  | RPR_SetTempoTimeSigMarker _ ptidx _ _ _ _ _ _ _ => ptidx = -1
  | _ => False
  end.






(** What [run] reads from the host after the calls [tr]: the wrapper of
    the marker of index [i], the wrappers of all the markers, and the tracks
    of the selected items. *)
Definition read_marker (h : Host) (tr : Trace) (i : Z)
    : TempoTimeSigMarkerWrapper.t :=
  let retlist := GetTempoTimeSigMarker h tr 0 i in
  {| TempoTimeSigMarkerWrapper.deferred := false;
     TempoTimeSigMarkerWrapper.retval := Some (gm_retval retlist);
     TempoTimeSigMarkerWrapper.proj := gm_proj retlist;
     TempoTimeSigMarkerWrapper.ptidx := Some (gm_ptidx retlist);
     TempoTimeSigMarkerWrapper.timepos := gm_timepos retlist;
     TempoTimeSigMarkerWrapper.measurepos := gm_measurepos retlist;
     TempoTimeSigMarkerWrapper.beatpos := gm_beatpos retlist;
     TempoTimeSigMarkerWrapper.bpm := gm_bpm retlist;
     TempoTimeSigMarkerWrapper.timesig_num := gm_timesig_num retlist;
     TempoTimeSigMarkerWrapper.timesig_denom := gm_timesig_denom retlist;
     TempoTimeSigMarkerWrapper.lineartempo := gm_lineartempo retlist |}.

Definition read_markers (h : Host) (tr : Trace)
    : list TempoTimeSigMarkerWrapper.t :=
  read_marker h tr <$> py_range (CountTempoTimeSigMarkers h tr 0).

Definition selected_tracks (h : Host) (tr : Trace) : list MediaTrack :=
  (fun i => GetMediaItem_Track h tr (GetSelectedMediaItem h tr 0 i))
    <$> py_range (CountSelectedMediaItems h tr 0).

(** The call by which [remove] deletes the marker of a wrapper. *)
Definition delete_call (sig : TempoTimeSigMarkerWrapper.t) : HostCall :=
  RPR_DeleteTempoTimeSigMarker (TempoTimeSigMarkerWrapper.proj sig)
    (default 0 (TempoTimeSigMarkerWrapper.ptidx sig)).

(** The positions of a marker list at which [removeRedundantSigs] deletes
    the marker: from the last position down to the second, those whose
    marker is equivalent to the marker just before it in the list. *)
Definition redundant_indices (siglist : list TempoTimeSigMarkerWrapper.t)
    : list nat :=
  filter (fun i => equivalentSigs (siglist !!! i) (siglist !!! (i - 1)%nat)
                   = true)
         (reverse (seq 1 (length siglist - 1))).

(** The calls that [run] may make. *)
Definition run_call (c : HostCall) : Prop :=
  match c with
  | RPR_PreventUIRefresh prevent_count =>
      prevent_count = 1 \/ prevent_count = -1
  | RPR_DeleteTempoTimeSigMarker _ _ => True
  | RPR_SelectAllMediaItems proj_ selected => proj_ = 0 /\ selected = false
  | RPR_SetMediaItemSelected _ _ => True
  | RPR_SetMediaItemInfo_Value _ parmname _ => parmname = "D_POSITION"
  | RPR_ApplyNudge _ nudgeflag nudgewhat nudgeunits _ reverse copies =>
      nudgeflag = 0 /\ nudgewhat = 5 /\ nudgeunits = 1 /\
      reverse = false /\ copies = 1
  | RPR_SetTempoTimeSigMarker _ ptidx _ _ _ _ _ _ _ => ptidx = -1
  | RPR_UpdateArrange => True
  end.

(** Lines 158-175 of [run]: the loop over the items of the track, from the
    cursor [0.0] and the empty marker map, as [run_replicate] has it. *)
Definition run_items (h : Host) (trackitems : list MediaItemReplicator.t)
    (selectediids : list MediaItem) (ndups nbetween : Z)
    : M (Qc * MediaItemReplicator.incount) :=
  for_each trackitems
    (fun item '(endt, incountsigd) =>
       r <- (if bool_decide (MediaItemReplicator.iid item ∈ selectediids)
             then MediaItemReplicator.replicate h item endt ndups nbetween
             else MediaItemReplicator.replicate h item endt 0 nbetween);;
       let '(endt, _incountsigd) := r in
       ret (endt, _incountsigd ∪ incountsigd))
    (f0, ∅).


(** Every marker of the list was read from the host by its index. *)
Definition read_from_host (sig : TempoTimeSigMarkerWrapper.t) : Prop :=
  exists p, TempoTimeSigMarkerWrapper.ptidx sig = Some p /\ 0 <= p.

#[global] Instance read_from_host_dec sig : Decision (read_from_host sig).
Proof.
  unfold read_from_host.
  destruct (TempoTimeSigMarkerWrapper.ptidx sig) as [p|].
  - destruct (decide (0 <= p)) as [Hp|Hp].
    + left. by exists p.
    + right. intros (q & [= <-] & Hq). done.
  - right. intros (q & [=] & _).
Defined.

#[global] Instance HostCall_eq_dec : EqDecision HostCall.
Proof. solve_decision. Defined.

Definition not_PreventUIRefresh (c : HostCall) : Prop :=
  ~ is_PreventUIRefresh c.

(** The calls made by [run], by the way it ends: none when it returns
    early; one suspension of the UI refresh, calls that leave the refresh
    counter alone, one resumption and the redraw when it runs to its end;
    and when it raises an exception, either no call at all or a suspension
    that no resumption follows. *)
Definition run_calls (r : Exn + RunExit) (calls : list HostCall) : Prop :=
  match r with
  | inr Completed =>
      exists mid,
        calls = RPR_PreventUIRefresh 1
                  :: mid ++ [RPR_PreventUIRefresh (-1); RPR_UpdateArrange] /\
        Forall not_PreventUIRefresh mid
  | inr _ => calls = []
  | inl _ =>
      calls = [] \/
      exists mid,
        calls = RPR_PreventUIRefresh 1 :: mid /\
        Forall not_PreventUIRefresh mid
  end.

(** [c] makes the calls that [run_calls] allows for its result. *)
Definition makes_run_calls (c : M RunExit) : Prop :=
  forall tr tr' r, c tr = (tr', r) ->
    exists calls, tr' = tr ++ calls /\ run_calls r calls.

(** [c] makes calls that leave the refresh counter alone and, when it
    returns, the calls [final] after them and a value that satisfies [V]. *)
Definition ends_with {A} (final : list HostCall) (V : A -> Prop) (c : M A)
    : Prop :=
  forall tr tr' r, c tr = (tr', r) ->
    exists mid,
      Forall not_PreventUIRefresh mid /\
      match r with
      | inl _ => tr' = tr ++ mid
      | inr a => tr' = tr ++ mid ++ final /\ V a
      end.

(** * Reasoning about computations *)

Section Computations.
Context {A B : Type}.

Lemma bind_inr (c : M A) (k : A -> M B) tr tr' b :
  bind c k tr = (tr', inr b) <->
  exists tr1 a, c tr = (tr1, inr a) /\ k a tr1 = (tr', inr b).
Proof.
  unfold bind. destruct (c tr) as [tr1 [e|a]]; split.
  - intros [=].
  - intros (? & ? & [=] & _).
  - eauto.
  - by intros (? & ? & [= <- <-] & ?).
Qed.

Lemma bind_inl (c : M A) (k : A -> M B) tr tr' e :
  bind c k tr = (tr', inl e) <->
  c tr = (tr', inl e) \/
  exists tr1 a, c tr = (tr1, inr a) /\ k a tr1 = (tr', inl e).
Proof.
  unfold bind. destruct (c tr) as [tr1 [e1|a]]; split.
  - intros [= <- <-]. by left.
  - intros [[= <- <-]|(? & ? & [=] & _)]. done.
  - right. eauto.
  - intros [[=]|(? & ? & [= <- <-] & ?)]. done.
Qed.

Lemma bind_eq (c : M A) (k : A -> M B) tr tr1 a :
  c tr = (tr1, inr a) -> bind c k tr = k a tr1.
Proof. unfold bind. by intros ->. Qed.

End Computations.

Section Emits.
Context (P : HostCall -> Prop).

Lemma emits_ret {A} (a : A) : emits P (ret a).
Proof. intros tr tr' r [= <- <-]. exists []. by rewrite app_nil_r. Qed.

Lemma emits_raise {A} e : emits P (@raise A e).
Proof. intros tr tr' r [= <- <-]. exists []. by rewrite app_nil_r. Qed.

Lemma emits_ask {A} (f : Trace -> A) : emits P (ask f).
Proof. intros tr tr' r [= <- <-]. exists []. by rewrite app_nil_r. Qed.

Lemma emits_call c : P c -> emits P (call c).
Proof. intros Hc tr tr' r [= <- <-]. exists [c]. auto. Qed.

Lemma emits_bind {A B} (c : M A) (k : A -> M B) :
  emits P c -> (forall a, emits P (k a)) -> emits P (bind c k).
Proof.
  intros Hc Hk tr tr' r. unfold bind.
  destruct (c tr) as [tr1 [e|a]] eqn:E; apply Hc in E as (l1 & -> & H1).
  - intros [= <- <-]. eauto.
  - intros (l2 & -> & H2)%Hk. exists (l1 ++ l2).
    rewrite app_assoc. split; [done|]. by apply Forall_app.
Qed.

Lemma emits_fdiv x y : emits P (fdiv x y).
Proof. unfold fdiv. case_decide; [apply emits_raise | apply emits_ret]. Qed.

Lemma emits_for_each {A St} (l : list A) (body : A -> St -> M St) s :
  (forall x s, emits P (body x s)) -> emits P (for_each l body s).
Proof.
  intros Hb. revert s. induction l as [|x l IH]; intros s; simpl.
  - apply emits_ret.
  - apply emits_bind; auto.
Qed.

Lemma emits_for_list {A B} (l : list A) (f : A -> M B) :
  (forall x, emits P (f x)) -> emits P (for_list l f).
Proof.
  intros Hf. induction l as [|x l IH]; simpl.
  - apply emits_ret.
  - apply emits_bind; [auto|]. intros y.
    apply emits_bind; [auto|]. intros ys. apply emits_ret.
Qed.

End Emits.

Lemma emits_silent {A} (c : M A) : emits (fun _ => False) c <-> silent c.
Proof.
  split.
  - intros Hc tr tr' r (calls & -> & H)%Hc.
    destruct calls as [|x calls]; [by rewrite app_nil_r|].
    by apply Forall_cons in H as [[] _].
  - intros Hc tr tr' r ->%Hc. exists []. by rewrite app_nil_r.
Qed.

Create HintDb py discriminated.
#[export] Hint Resolve emits_ret emits_raise emits_ask emits_call emits_fdiv : py.

(** Decompose [emits] goals along the structure of the computation. *)
Ltac emits_step :=
  match goal with
  | |- emits _ (bind _ _) => apply emits_bind; [|intros ?]
  | |- emits _ (for_each _ _ _) => apply emits_for_each; intros ? ?
  | |- emits _ (for_list _ _) => apply emits_for_list; intros ?
  | |- emits _ (if ?b then _ else _) => destruct b
  | |- emits _ (match ?x with _ => _ end) => destruct x
  | |- emits _ _ => solve [auto with py]
  end.

(** Inversion of the elementary computations. *)
Lemma fdiv_inr x y tr tr' q :
  fdiv x y tr = (tr', inr q) <-> y <> f0 /\ tr' = tr /\ q = (x / y)%Qc.
Proof.
  unfold fdiv, raise, ret. case_decide; split.
  - intros [=].
  - by intros [? _].
  - by intros [= <- <-].
  - by intros (_ & -> & ->).
Qed.

Lemma fdiv_inl x y tr tr' e :
  fdiv x y tr = (tr', inl e) <-> y = f0 /\ tr' = tr /\ e = ZeroDivisionError.
Proof.
  unfold fdiv, raise, ret. case_decide; split.
  - by intros [= <- <-].
  - by intros (_ & -> & ->).
  - intros [=].
  - by intros [? _].
Qed.

Ltac inv_step :=
  match goal with
  | H : bind _ _ _ = (_, inr _) |- _ =>
      apply bind_inr in H as (? & ? & ? & ?)
  | H : bind _ _ _ = (_, inl _) |- _ =>
      apply bind_inl in H as [?|(? & ? & ? & ?)]
  | H : fdiv _ _ _ = (_, inr _) |- _ => apply fdiv_inr in H as (? & ? & ?)
  | H : fdiv _ _ _ = (_, inl _) |- _ => apply fdiv_inl in H as (? & ? & ?)
  | H : ask _ _ = _ |- _ => unfold ask in H
  | H : ret _ _ = _ |- _ => unfold ret in H
  | H : raise _ _ = _ |- _ => unfold raise in H
  | H : call _ _ = _ |- _ => unfold call in H
  | H : (if ?b then _ else _) _ = _ |- _ => destruct b eqn:?
  | H : (let (_, _) := ?x in _) _ = _ |- _ => destruct x
  | H : (match ?x with _ => _ end) _ = _ |- _ => destruct x eqn:?
  | _ => progress simplify_eq
  end.
Ltac inv_M := repeat inv_step.

(** * The constructor of [MediaItemReplicator] *)

Section Init.
Context (h : Host).

Lemma init_silent proj_ itemid l b :
  silent (MediaItemReplicator.init h proj_ itemid l b).
Proof.
  apply emits_silent. unfold MediaItemReplicator.init.
  repeat emits_step.
Qed.

Lemma init_tempotimesiglist proj_ itemid l b tr tr' self :
  MediaItemReplicator.init h proj_ itemid l b tr = (tr', inr self) ->
  MediaItemReplicator.tempotimesiglist self = l.
Proof. unfold MediaItemReplicator.init. intros H. by inv_M. Qed.


End Init.


(** C10: an item constructed with an empty list of tempo / time signature
    markers makes [replicate] raise [IndexError] (at
    [self.tempotimesiglist[0]]) with the trace of host calls unchanged: no
    call is made before the exception. *)
Theorem replicate_empty_siglist_IndexError
    h proj_ itemid id_is_index tr0 tr1 self t0 ndups nbetween tr :
  MediaItemReplicator.init h proj_ itemid [] id_is_index tr0
    = (tr1, inr self) ->
  MediaItemReplicator.replicate h self t0 ndups nbetween tr
    = (tr, inl IndexError).
Proof.
  intros Hl%init_tempotimesiglist.
  unfold MediaItemReplicator.replicate. by rewrite Hl.
Qed.

Lemma replicate_empty_siglist_IndexError_witness :
  let h := host_of (project1 (true, "1,1") true) in
  exists self,
    MediaItemReplicator.init h 0 0 [] true [] = ([], inr self) /\
    MediaItemReplicator.replicate h self f0 1 1 [RPR_PreventUIRefresh 1]
      = ([RPR_PreventUIRefresh 1], inl IndexError).
Proof.
  intros h.
  set (result := MediaItemReplicator.init h 0 0 [] true []).
  assert (E : result = ([], inr (default (item_at_4 []) (returned result))))
    by (by vm_compute).
  eexists. split; [exact E|].
  exact (replicate_empty_siglist_IndexError h 0 0 true [] [] _ f0 1 1
           [RPR_PreventUIRefresh 1] E).
Defined.

(** * Input validation *)

Lemma userInputs_silent h title items :
  silent (PTKutils.userInputs h title items).
Proof.
  apply emits_silent. unfold PTKutils.userInputs. repeat emits_step.
Qed.

(** C8: when the user accepts the dialog with a negative number in the
    field of the duplicates, [run] returns early, before the snapshot and
    before [RPR_PreventUIRefresh(1)]: at line 39, or at line 36 when the
    field of the measures cannot be converted.  The trace of host calls is
    unchanged, so no marker is removed or created, no item is moved,
    duplicated or reselected and the UI refresh is not suspended. *)
Theorem run_negative_duplicates h tr csv field fields n :
  PTKutils.dialog h "Parameters" [("ndups", 1); ("nbetween", 1)] tr
    = (true, csv) ->
  PTKutils.split_comma csv = field :: fields ->
  PTKutils.int field = Some n ->
  n < 0 ->
  run h tr
  = (tr, inr match fields with
             | [] => NegativeDuplicates
             | field' :: _ =>
                 match PTKutils.int field' with
                 | Some _ => NegativeDuplicates
                 | None => BadInput
                 end
             end).
Proof.
  intros Hdialog Hsplit Hint Hneg.
  unfold run, PTKutils.userInputs, bind at 1, bind at 1, ask.
  rewrite Hdialog. cbn [fst snd negb]. rewrite Hsplit.
  unfold ret at 1. cbn [fmap list_fmap zip zip_with fst snd PTKutils.convert].
  rewrite Hint.
  destruct fields as [|field' fields'];
    cbn [zip_with PTKutils.convert].
  - change (PTKutils.get _ "ndups") with (Some n). cbv beta iota.
    by rewrite bool_decide_eq_true_2.
  - destruct (PTKutils.int field') as [n'|]; [|done].
    change (PTKutils.get _ "ndups") with (Some n). cbv beta iota.
    by rewrite bool_decide_eq_true_2.
Qed.

Lemma run_negative_duplicates_witness :
  run (host_of (project1 (true, "-1,1") true)) []
    = ([], inr NegativeDuplicates).
Proof.
  apply (run_negative_duplicates _ [] "-1,1" "-1" ["1"] (-1));
    [reflexivity | reflexivity | reflexivity | lia].
Defined.

(** * The lead-in marker *)

Section ScanSigs.
Context (self : MediaItemReplicator.t).


End ScanSigs.



(** * Redundant signatures *)

Section NonRedundant.
Context (sigd : gmap Qc TempoTimeSigMarkerWrapper.t).

Local Abbreviation sigtimes_r := (sorted_reverse (elements (dom sigd))).

Lemma sigtimes_r_Permutation : sigtimes_r ≡ₚ elements (dom sigd).
Proof. apply merge_sort_Permutation. Qed.

Lemma sigtimes_r_sorted : StronglySorted (flip Qcle) sigtimes_r.
Proof.
  apply StronglySorted_merge_sort.
  - intros x y z Hxy Hyz. unfold flip in *. by eapply Qcle_trans.
  - intros x y. unfold flip. destruct (Qc_le_total x y); auto.
Qed.

Lemma sigtimes_r_NoDup : NoDup sigtimes_r.
Proof. rewrite sigtimes_r_Permutation. apply NoDup_elements. Qed.

Lemma elem_of_sigtimes_r t_ : t_ ∈ sigtimes_r <-> t_ ∈ dom sigd.
Proof. rewrite sigtimes_r_Permutation. apply elem_of_elements. Qed.

Lemma length_sigtimes_r : length sigtimes_r = size sigd.
Proof. rewrite sigtimes_r_Permutation. by rewrite <- size_dom. Qed.

(** The loop over [enumerate(sigtimes_r[0:-1])], started in the middle of
    the list. *)
Lemma nonredundant_loop (full p l nrkeys : list Qc) :
  full = p ++ l ->
  foldl (fun nrkeys '(i, t_) =>
           let current := sigd !!! (full !!! i) in
           let previous := sigd !!! (full !!! (i + 1)%nat) in
           if negb (equivalentSigs previous current) then t_ :: nrkeys
           else nrkeys)
        nrkeys
        (zip (seq (length p) (length (take (length l - 1) l)))
             (take (length l - 1) l))
  = reverse (differing_from_next sigd l) ++ nrkeys.
Proof.
  revert p nrkeys. induction l as [|t_ l IH]; intros p nrkeys Hfull; [done|].
  destruct l as [|t' l]; [done|].
  replace (length (t_ :: t' :: l) - 1)%nat with (S (length (t' :: l) - 1))
    by (simpl; lia).
  cbn [take length seq zip zip_with foldl].
  assert (H0 : full !!! length p = t_).
  { rewrite Hfull. by apply list_lookup_total_middle. }
  assert (H1 : full !!! (length p + 1)%nat = t').
  { rewrite Hfull, (cons_middle t_ p (t' :: l)), (assoc_L (++)).
    apply list_lookup_total_middle. rewrite length_app. simpl. lia. }
  rewrite H0, H1.
  specialize (IH (p ++ [t_])). rewrite length_app in IH. simpl in IH.
  replace (length p + 1)%nat with (S (length p)) in IH by lia.
  simpl in *. rewrite IH; [|by rewrite <- (assoc_L (++))].
  destruct (negb (equivalentSigs (sigd !!! t') (sigd !!! t_))); [|done].
  by rewrite reverse_cons, <- (assoc_L (++)).
Qed.

Lemma getNonRedundantSigTimes_unfold :
  getNonRedundantSigTimes sigd = reverse (differing_from_next sigd sigtimes_r).
Proof.
  unfold getNonRedundantSigTimes, enumerate. fold sigtimes_r.
  pose proof (nonredundant_loop sigtimes_r [] sigtimes_r [] eq_refl) as H.
  change (length (@nil Qc)) with 0%nat in H.
  by rewrite app_nil_r in H.
Qed.

Lemma differing_from_next_has_next l t_ :
  t_ ∈ differing_from_next sigd l ->
  exists l1 t' l2, l = l1 ++ t_ :: t' :: l2.
Proof.
  induction l as [|x l IH]; [by intros ?%elem_of_nil|].
  destruct l as [|t' l]; [by intros ?%elem_of_nil|].
  cbn [differing_from_next].
  intros Hin.
  assert (Hcases : t_ = x \/ t_ ∈ differing_from_next sigd (t' :: l)).
  { destruct (negb _); [|by right].
    apply elem_of_cons in Hin as [->|?]; auto. }
  destruct Hcases as [->|(l1 & t'' & l2 & ->)%IH].
  - by exists [], t', l.
  - by exists (x :: l1), t'', l2.
Qed.

Lemma length_differing_from_next l :
  (length (differing_from_next sigd l) <= length l - 1)%nat.
Proof.
  induction l as [|x l IH]; [done|].
  destruct l as [|t' l]; [done|].
  cbn [differing_from_next]. destruct (negb _); simpl in *; lia.
Qed.

(** The subscripts of the loop are in range: [i] and [i+1] in
    [sigtimes_r], and both keys in [sigd]. *)
Lemma getNonRedundantSigTimes_lookups i t_ :
  (i, t_) ∈ enumerate (take (length sigtimes_r - 1) sigtimes_r) ->
  sigtimes_r !! i = Some t_ /\ is_Some (sigd !! t_) /\
  exists t', sigtimes_r !! (i + 1)%nat = Some t' /\ is_Some (sigd !! t').
Proof.
  unfold enumerate. intros (j & Hj)%list_elem_of_lookup_1.
  apply lookup_zip_with_Some in Hj as (i' & t'' & [= <- <-] & Hi & Ht).
  apply lookup_seq in Hi as [-> Hlt]. simpl in *.
  apply lookup_take_Some in Ht as [Ht Hlt'].
  destruct (lookup_lt_is_Some_2 sigtimes_r (j + 1)) as [t' Ht']; [lia|].
  split; [done|]. split.
  - apply elem_of_dom, elem_of_sigtimes_r. by eapply list_elem_of_lookup_2.
  - exists t'. split; [done|].
    apply elem_of_dom, elem_of_sigtimes_r. by eapply list_elem_of_lookup_2.
Qed.

End NonRedundant.

(** The smallest key of a marker map is not in the list returned, which
    is shorter than the list of keys. *)
Lemma getNonRedundantSigTimes_not_min
    (sigd : gmap Qc TempoTimeSigMarkerWrapper.t) (tmin : Qc) :
  tmin ∈ dom sigd ->
  (forall t_, t_ ∈ dom sigd -> (tmin <= t_)%Qc) ->
  (tmin ∉ getNonRedundantSigTimes sigd) /\
  (length (getNonRedundantSigTimes sigd) <= size sigd - 1)%nat.
Proof.
  intros Hdom Hmin. rewrite getNonRedundantSigTimes_unfold. split.
  - rewrite elem_of_reverse.
    intros (l1 & t' & l2 & Hl)%differing_from_next_has_next.
    pose proof (sigtimes_r_sorted sigd) as Hsorted.
    pose proof (sigtimes_r_NoDup sigd) as Hnodup.
    rewrite Hl in Hsorted, Hnodup.
    apply StronglySorted_app_1_r, StronglySorted_cons in Hsorted as [Hle _].
    apply Forall_cons in Hle as [Hle _]. unfold flip in Hle.
    apply NoDup_app in Hnodup as (_ & _ & Hnodup).
    apply NoDup_cons in Hnodup as [Hne _].
    assert (Ht' : t' ∈ dom sigd).
    { apply elem_of_sigtimes_r. rewrite Hl. set_solver. }
    apply Hmin in Ht'.
    assert (t' = tmin) as -> by (by apply Qcle_antisym).
    apply Hne. by left.
  - rewrite length_reverse, <- length_sigtimes_r.
    apply length_differing_from_next.
Qed.

(** A marker map that is not empty has a smallest key. *)
Lemma marker_map_min (sigd : gmap Qc TempoTimeSigMarkerWrapper.t) :
  sigd <> ∅ ->
  exists tmin, tmin ∈ dom sigd /\ forall t_, t_ ∈ dom sigd -> (tmin <= t_)%Qc.
Proof.
  intros Hne%map_size_non_empty_iff. rewrite <- length_sigtimes_r in Hne.
  pose proof (sigtimes_r_sorted sigd) as Hsorted.
  destruct (sorted_reverse (elements (dom sigd))) as [|tmin l _] eqn:El
    using rev_ind; [done|].
  exists tmin. split.
  - apply elem_of_sigtimes_r. rewrite El. set_solver.
  - intros t_ Ht%elem_of_sigtimes_r. rewrite El in Ht.
    apply elem_of_app in Ht as [Ht|Ht];
      [|apply list_elem_of_singleton in Ht as ->; apply Qcle_refl].
    apply (StronglySorted_app_1_elem_of _ _ _ t_ tmin Hsorted Ht). by left.
Qed.

(** C9: a marker map that is not empty has a smallest time key, and the
    list returned by [getNonRedundantSigTimes] never contains it: the
    earliest marker is not kept, hence not created afterwards by [run].
    The list has at most one entry less than the map has keys. *)
Theorem getNonRedundantSigTimes_drops_earliest
    (sigd : gmap Qc TempoTimeSigMarkerWrapper.t) :
  sigd <> ∅ ->
  exists tmin,
    tmin ∈ dom sigd /\
    (forall t_, t_ ∈ dom sigd -> (tmin <= t_)%Qc) /\
    (tmin ∉ getNonRedundantSigTimes sigd) /\
    (length (getNonRedundantSigTimes sigd) <= size sigd - 1)%nat.
Proof.
  intros (tmin & Hdom & Hmin)%marker_map_min. exists tmin.
  split; [done|]. split; [done|].
  by apply getNonRedundantSigTimes_not_min.
Qed.

Lemma getNonRedundantSigTimes_drops_earliest_witness :
  let sigd : gmap Qc TempoTimeSigMarkerWrapper.t :=
    <[f0 := sig_0]> (<[qc 4 1 := sig_4]> ∅) in
  exists tmin,
    tmin ∈ dom sigd /\
    (forall t_, t_ ∈ dom sigd -> (tmin <= t_)%Qc) /\
    (tmin ∉ getNonRedundantSigTimes sigd) /\
    (length (getNonRedundantSigTimes sigd) <= size sigd - 1)%nat.
Proof.
  intros sigd. apply getNonRedundantSigTimes_drops_earliest.
  apply (bool_decide_unpack _). by vm_compute.
Defined.

(** C5, at a failing input: on the map with the markers [sig_0] (120 bpm)
    at 0.0 s and [sig_4] (100 bpm) at 4.0 s the function returns [[4.0]];
    on this map restricted to the key 4.0 it returns the empty list, not
    [[4.0]] again. *)
Theorem getNonRedundantSigTimes_twice_example :
  let sigd : gmap Qc TempoTimeSigMarkerWrapper.t :=
    <[f0 := sig_0]> (<[qc 4 1 := sig_4]> ∅) in
  getNonRedundantSigTimes sigd = [qc 4 1] /\
  getNonRedundantSigTimes (restrict_to (getNonRedundantSigTimes sigd) sigd)
    = [].
Proof. split; by vm_compute. Qed.
(** * Applying [getNonRedundantSigTimes] to its own result *)

Section EquivalentSigs.

Lemma equivalentSigs_refl s : equivalentSigs s s = true.
Proof. unfold equivalentSigs. by rewrite !bool_decide_eq_true_2. Qed.

Lemma equivalentSigs_true s1 s2 :
  equivalentSigs s1 s2 = true <->
  TempoTimeSigMarkerWrapper.bpm s1 = TempoTimeSigMarkerWrapper.bpm s2 /\
  TempoTimeSigMarkerWrapper.timesig_num s1
    = TempoTimeSigMarkerWrapper.timesig_num s2 /\
  TempoTimeSigMarkerWrapper.timesig_denom s1
    = TempoTimeSigMarkerWrapper.timesig_denom s2 /\
  TempoTimeSigMarkerWrapper.lineartempo s1
    = TempoTimeSigMarkerWrapper.lineartempo s2.
Proof.
  unfold equivalentSigs. rewrite !andb_true_iff, !bool_decide_eq_true.
  split; [intros [[[? ?] ?] ?]; auto | intros (? & ? & ? & ?); auto].
Qed.

Lemma equivalentSigs_sym s1 s2 :
  equivalentSigs s1 s2 = true -> equivalentSigs s2 s1 = true.
Proof.
  rewrite !equivalentSigs_true. intros (? & ? & ? & ?). by repeat split.
Qed.

Lemma equivalentSigs_trans s1 s2 s3 :
  equivalentSigs s1 s2 = true -> equivalentSigs s2 s3 = true ->
  equivalentSigs s1 s3 = true.
Proof.
  rewrite !equivalentSigs_true. intros (? & ? & ? & ?) (? & ? & ? & ?).
  repeat split; congruence.
Qed.

End EquivalentSigs.

Lemma StronglySorted_sublist {A} (R : relation A) (l1 l2 : list A) :
  l1 `sublist_of` l2 -> StronglySorted R l2 -> StronglySorted R l1.
Proof.
  induction 1 as [|x l1 l2 Hsub IH|x l1 l2 Hsub IH]; intros Hs.
  - constructor.
  - apply StronglySorted_cons in Hs as [Hx Hs].
    apply StronglySorted_cons. split; [|by apply IH].
    apply Forall_forall. intros y Hy. rewrite Forall_forall in Hx.
    apply Hx. by eapply elem_of_sublist.
  - apply StronglySorted_cons in Hs as [_ Hs]. by apply IH.
Qed.

Lemma reverse_removelast {A} (l : list A) :
  reverse (removelast l) = tail (reverse l).
Proof.
  destruct l as [|x l _] using rev_ind; [done|].
  by rewrite removelast_last, reverse_snoc.
Qed.

Section Restrict.
Context (sigd : gmap Qc TempoTimeSigMarkerWrapper.t).

Lemma differing_from_next_cons2
    (m : gmap Qc TempoTimeSigMarkerWrapper.t) x y l :
  differing_from_next m (x :: y :: l)
  = if negb (equivalentSigs (m !!! y) (m !!! x))
    then x :: differing_from_next m (y :: l)
    else differing_from_next m (y :: l).
Proof. done. Qed.

Lemma differing_from_next_sublist l :
  differing_from_next sigd l `sublist_of` l.
Proof.
  induction l as [|x l IH]; [constructor|].
  destruct l as [|y l]; [apply sublist_nil_l|].
  cbn [differing_from_next]. destruct (negb _); by constructor.
Qed.

(** The first key kept carries the same tempo and signature as the first
    key of the list. *)
Lemma differing_from_next_head x l a D :
  differing_from_next sigd (x :: l) = a :: D ->
  equivalentSigs (sigd !!! x) (sigd !!! a) = true.
Proof.
  revert x. induction l as [|y l IH]; intros x; [done|].
  cbn [differing_from_next].
  destruct (equivalentSigs (sigd !!! y) (sigd !!! x)) eqn:E; cbn [negb].
  - intros H%IH. eapply equivalentSigs_trans; [|done].
    by apply equivalentSigs_sym.
  - intros [= <- _]. apply equivalentSigs_refl.
Qed.

(** Two keys that follow each other in the result carry different tempi or
    signatures: a second pass keeps them all, except the last one. *)
Lemma differing_from_next_twice l :
  differing_from_next sigd (differing_from_next sigd l)
  = removelast (differing_from_next sigd l).
Proof.
  induction l as [|x l IH]; [done|].
  destruct l as [|y l]; [done|].
  cbn [differing_from_next] in *.
  destruct (equivalentSigs (sigd !!! y) (sigd !!! x)) eqn:E; cbn [negb];
    [done|].
  destruct (match l with [] => [] | _ => _ end) as [|b D] eqn:HD; [done|].
  change (match l with [] => [] | _ => _ end)
    with (differing_from_next sigd (y :: l)) in HD.
  cbn [differing_from_next removelast].
  assert (Hb : equivalentSigs (sigd !!! b) (sigd !!! x) = false).
  { destruct (equivalentSigs (sigd !!! b) (sigd !!! x)) eqn:Eb; [|done].
    assert (equivalentSigs (sigd !!! y) (sigd !!! x) = true); [|congruence].
    eapply equivalentSigs_trans; [|done].
    by eapply differing_from_next_head. }
  rewrite Hb. cbn [negb]. f_equal. exact IH.
Qed.

Lemma differing_from_next_ext
    (sigd' : gmap Qc TempoTimeSigMarkerWrapper.t) l :
  (forall t_, t_ ∈ l -> sigd' !!! t_ = sigd !!! t_) ->
  differing_from_next sigd' l = differing_from_next sigd l.
Proof.
  induction l as [|x l IH]; [done|]. intros Hl.
  destruct l as [|y l]; [done|].
  rewrite !differing_from_next_cons2.
  rewrite (Hl x), (Hl y) by set_solver.
  rewrite IH; [done|]. intros t_ Ht. apply Hl. by right.
Qed.

(** What the function returns on the map restricted to its own result:
    the same list without its first (earliest) key. *)
Lemma getNonRedundantSigTimes_restrict :
  getNonRedundantSigTimes (restrict_to (getNonRedundantSigTimes sigd) sigd)
  = tail (getNonRedundantSigTimes sigd).
Proof.
  rewrite (getNonRedundantSigTimes_unfold (restrict_to _ _)).
  rewrite (getNonRedundantSigTimes_unfold sigd).
  set (L := sorted_reverse (elements (dom sigd))).
  set (D := differing_from_next sigd L).
  set (sigd' := restrict_to (reverse D) sigd).
  assert (Hsub : D `sublist_of` L) by apply differing_from_next_sublist.
  assert (HD : forall t_, t_ ∈ D -> t_ ∈ dom sigd).
  { intros t_ Ht. apply elem_of_sigtimes_r. by eapply elem_of_sublist. }
  assert (Hdom : forall t_, t_ ∈ dom sigd' <-> t_ ∈ D).
  { intros t_. unfold sigd', restrict_to. rewrite elem_of_dom.
    unfold is_Some. setoid_rewrite map_lookup_filter_Some. simpl.
    setoid_rewrite elem_of_reverse. split; [by intros (v & _ & Ht)|].
    intros Ht. pose proof (HD t_ Ht) as [v Hv]%elem_of_dom. eauto. }
  assert (Hkeys : sorted_reverse (elements (dom sigd')) = D).
  { assert (AntiSymm (=) (flip Qcle))
      by (intros x y Hxy Hyx; by apply Qcle_antisym).
    apply (StronglySorted_unique (flip Qcle)).
    - apply sigtimes_r_sorted.
    - apply (StronglySorted_sublist _ D L); [exact Hsub|].
      apply sigtimes_r_sorted.
    - apply NoDup_Permutation.
      + apply sigtimes_r_NoDup.
      + apply (sublist_NoDup D L); [apply sigtimes_r_NoDup|exact Hsub].
      + intros t_. by rewrite elem_of_sigtimes_r. }
  rewrite Hkeys, <- reverse_removelast. f_equal.
  transitivity (differing_from_next sigd D);
    [|apply differing_from_next_twice].
  apply differing_from_next_ext. intros t_ Ht.
  pose proof (HD t_ Ht) as [v Hv]%elem_of_dom.
  rewrite (lookup_total_correct sigd t_ v Hv).
  apply lookup_total_correct. unfold sigd', restrict_to.
  apply map_lookup_filter_Some. split; [done|]. simpl.
  by apply elem_of_reverse.
Qed.

End Restrict.

(** * Loops *)



Lemma length_py_range n : length (py_range n) = Z.to_nat n.
Proof. unfold py_range. by rewrite length_fmap, length_seq. Qed.

(** * [replicate]: the cursor and the marker map *)

Section Replicate.
Context (h : Host) (self : MediaItemReplicator.t).

(** The lead-in marker is a deferred wrapper at [t_] with the tempo and the
    signature of [insig]; building it makes no call. *)
Lemma lead_in_returns insig t_ tr :
  exists lead,
    MediaItemReplicator.lead_in h self insig t_ tr = (tr, inr lead) /\
    TempoTimeSigMarkerWrapper.deferred lead = true /\
    TempoTimeSigMarkerWrapper.timepos lead = t_ /\
    TempoTimeSigMarkerWrapper.bpm lead = TempoTimeSigMarkerWrapper.bpm insig /\
    TempoTimeSigMarkerWrapper.timesig_num lead
      = TempoTimeSigMarkerWrapper.timesig_num insig /\
    TempoTimeSigMarkerWrapper.timesig_denom lead
      = TempoTimeSigMarkerWrapper.timesig_denom insig.
Proof. by eexists. Qed.


Lemma clone_inr sig time_value is_offset deferred_ tr tr' cloned :
  TempoTimeSigMarkerWrapper.clone h sig time_value is_offset deferred_ tr
    = (tr', inr cloned) ->
  TempoTimeSigMarkerWrapper.timepos cloned
    = (if is_offset
       then (TempoTimeSigMarkerWrapper.timepos sig + time_value)%Qc
       else time_value) /\
  TempoTimeSigMarkerWrapper.bpm cloned = TempoTimeSigMarkerWrapper.bpm sig /\
  TempoTimeSigMarkerWrapper.timesig_num cloned
    = TempoTimeSigMarkerWrapper.timesig_num sig /\
  TempoTimeSigMarkerWrapper.timesig_denom cloned
    = TempoTimeSigMarkerWrapper.timesig_denom sig /\
  TempoTimeSigMarkerWrapper.lineartempo cloned
    = TempoTimeSigMarkerWrapper.lineartempo sig.
Proof.
  unfold TempoTimeSigMarkerWrapper.clone, TempoTimeSigMarkerWrapper.set.
  intros H. inv_M; done.
Qed.














End Replicate.


Section ReplicateNoInterior.
Context (h : Host) (self : MediaItemReplicator.t).




End ReplicateNoInterior.




(** C3, at a failing input: an item at 4.0 s with interior markers at
    5.0 s and 6.0 s, placed from the cursor 0.0 with one gap measure and no
    copy.  The placement starts at 2.0 s, so the markers move to 3.0 s and
    4.0 s.  The map returned has the keys 0.0 (lead-in) and 2.0 only: the
    clone of the marker of 6.0 s, whose time position is 4.0 s, is stored
    under the start 2.0 of the placement, and the clone of the marker of
    5.0 s is overwritten by it. *)
Theorem replicate_clone_keys_example :
  let h := host_of (project1 (true, "0,1") true) in
  let self := item_at_4 [sig_0; sig_5; sig_6] in
  exists tr' t1 m,
    MediaItemReplicator.replicate h self f0 0 1 [] = (tr', inr (t1, m)) /\
    dom m = {[ f0; qc 2 1 ]} /\
    TempoTimeSigMarkerWrapper.timepos <$> m !! qc 2 1 = Some (qc 4 1) /\
    TempoTimeSigMarkerWrapper.bpm <$> m !! qc 2 1
      = Some (TempoTimeSigMarkerWrapper.bpm sig_6) /\
    m !! qc 3 1 = None /\ m !! qc 4 1 = None.
Proof.
  intros h self.
  set (result := MediaItemReplicator.replicate h self f0 0 1 []).
  exists result.1, (default (f0, ∅) (returned result)).1,
         (default (f0, ∅) (returned result)).2.
  split; [by vm_compute|].
  split; [by apply (bool_decide_unpack _); vm_compute|].
  split; [by vm_compute|]. split; by vm_compute.
Qed.
(** * The calls made by the methods *)

Section MethodCalls.
Context (h : Host).

Lemma create_emits sig :
  emits not_PreventUIRefresh (TempoTimeSigMarkerWrapper.create h sig).
Proof.
  unfold TempoTimeSigMarkerWrapper.create. repeat emits_step.
  apply emits_call. by intros [].
Qed.

Lemma wrapper_init_emits proj_ ptidx_ timepos_ bpm_ num denom :
  emits not_PreventUIRefresh
    (TempoTimeSigMarkerWrapper.init h proj_ ptidx_ timepos_ bpm_ num denom).
Proof.
  unfold TempoTimeSigMarkerWrapper.init,
    TempoTimeSigMarkerWrapper.initByIdSearch.
  repeat emits_step. apply create_emits.
Qed.

Lemma clone_emits sig time_value is_offset deferred_ :
  emits not_PreventUIRefresh
    (TempoTimeSigMarkerWrapper.clone h sig time_value is_offset deferred_).
Proof.
  unfold TempoTimeSigMarkerWrapper.clone, TempoTimeSigMarkerWrapper.set,
    TempoTimeSigMarkerWrapper.get_ptidx.
  repeat emits_step; try apply wrapper_init_emits.
  apply emits_call. by intros [].
Qed.

Lemma remove_emits sig :
  emits not_PreventUIRefresh (TempoTimeSigMarkerWrapper.remove sig).
Proof.
  unfold TempoTimeSigMarkerWrapper.remove, TempoTimeSigMarkerWrapper.get_ptidx.
  repeat emits_step. apply emits_call. by intros [].
Qed.

Lemma replicate_emits self t0 ndups nbetween :
  emits not_PreventUIRefresh
    (MediaItemReplicator.replicate h self t0 ndups nbetween).
Proof.
  unfold MediaItemReplicator.replicate, MediaItemReplicator.duplicate,
    MediaItemReplicator.clone_itemsigs, MediaItemReplicator.lead_in.
  repeat emits_step;
    try apply wrapper_init_emits; try apply clone_emits;
    apply emits_call; by intros [].
Qed.

Lemma wrapper_init_silent proj_ p timepos_ bpm_ num denom :
  0 <= p ->
  silent (TempoTimeSigMarkerWrapper.init h proj_ (Some p) timepos_ bpm_
            num denom).
Proof.
  intros Hp. apply emits_silent.
  unfold TempoTimeSigMarkerWrapper.init,
    TempoTimeSigMarkerWrapper.initByIdSearch.
  rewrite (proj2 (Z.leb_le 0 p) Hp). repeat emits_step.
Qed.

End MethodCalls.
(** * The calls made by [run] *)

Lemma makes_run_calls_silent_bind {A} (c : M A) (k : A -> M RunExit) :
  silent c -> (forall a, makes_run_calls (k a)) -> makes_run_calls (bind c k).
Proof.
  intros Hc Hk tr tr' r. unfold bind.
  destruct (c tr) as [tr1 [e|a]] eqn:E; apply Hc in E as ->.
  - intros [= <- <-]. exists []. split; [by rewrite app_nil_r|by left].
  - apply Hk.
Qed.

Lemma makes_run_calls_early (x : RunExit) :
  x <> Completed -> makes_run_calls (ret x).
Proof.
  intros Hx tr tr' r [= <- <-]. exists [].
  split; [by rewrite app_nil_r|]. by destruct x.
Qed.

Lemma makes_run_calls_raise e : makes_run_calls (raise e).
Proof.
  intros tr tr' r [= <- <-]. exists [].
  split; [by rewrite app_nil_r|]. by left.
Qed.

Lemma ends_with_bind {A B} final V (c : M A) (k : A -> M B) :
  emits not_PreventUIRefresh c -> (forall a, ends_with final V (k a)) ->
  ends_with final V (bind c k).
Proof.
  intros Hc Hk tr tr' r. unfold bind.
  destruct (c tr) as [tr1 [e|a]] eqn:E; apply Hc in E as (l1 & -> & H1).
  - intros [= <- <-]. by exists l1.
  - intros (l2 & H2 & Hr)%Hk. exists (l1 ++ l2).
    split; [by apply Forall_app|].
    destruct r as [e|b]; [|destruct Hr as [Hr Hb]];
      subst; by rewrite <- !(assoc_L (++)).
Qed.

Lemma ends_with_calls {A} (c1 c2 : HostCall) (a : A) :
  ends_with [c1; c2] (fun x => x = a) (call c1;;; call c2;;; ret a).
Proof. intros tr tr' r [= <- <-]. exists []. by rewrite <- (assoc_L (++)). Qed.

Section RunCalls.
Context (h : Host).

Lemma run_replicate_calls siglist trackitems selectediids ndups nbetween :
  makes_run_calls
    (run_replicate h siglist trackitems selectediids ndups nbetween).
Proof.
  intros tr tr' r. unfold run_replicate.
  unfold bind at 1, call at 1.
  intros (mid & Hmid & Hr)%(ends_with_bind
                             [RPR_PreventUIRefresh (-1); RPR_UpdateArrange]
                             (fun x => x = Completed)).
  - destruct r as [e|x].
    + exists (RPR_PreventUIRefresh 1 :: mid).
      split; [by rewrite Hr, <- (assoc_L (++))|]. right. by exists mid.
    + destruct Hr as [Hr ->].
      exists (RPR_PreventUIRefresh 1
                :: mid ++ [RPR_PreventUIRefresh (-1); RPR_UpdateArrange]).
      split; [by rewrite Hr, <- (assoc_L (++))|]. by exists mid.
  - apply emits_for_each. intros sig []. apply remove_emits.
  - intros [].
    apply ends_with_bind; [apply emits_call; by intros []|]. intros [].
    apply ends_with_bind.
    { apply emits_for_each. intros item [endt d].
      repeat emits_step; apply replicate_emits. }
    intros [endt d].
    apply ends_with_bind.
    { apply emits_for_each. intros t_ []. apply create_emits. }
    intros []. apply ends_with_calls.
Qed.

Lemma for_list_silent {A B} (l : list A) (f : A -> M B) :
  (forall x, x ∈ l -> silent (f x)) -> silent (for_list l f).
Proof.
  induction l as [|x l IH]; intros Hf tr tr' r; simpl.
  - by intros [= <- <-].
  - unfold bind.
    destruct (f x tr) as [tr1 [e|y]] eqn:E; apply Hf in E as ->;
      [by intros [= <- <-]|by left| |by left].
    destruct (for_list l f tr) as [tr2 [e|ys]] eqn:E2; apply IH in E2 as ->;
      try (by intros [= <- <-]); intros y' Hy'; apply Hf; by right.
Qed.

Lemma elem_of_py_range n x : x ∈ py_range n -> 0 <= x.
Proof.
  unfold py_range. intros (k & -> & _)%list_elem_of_fmap. lia.
Qed.

Lemma run_gather_calls ndups nbetween :
  makes_run_calls (run_gather h ndups nbetween).
Proof.
  unfold run_gather.
  apply makes_run_calls_silent_bind; [by intros ??? [= <- _]|]. intros nsig.
  apply makes_run_calls_silent_bind.
  { apply for_list_silent. intros sigid Hsigid%elem_of_py_range.
    by apply wrapper_init_silent. }
  intros siglist.
  apply makes_run_calls_silent_bind; [by intros ??? [= <- _]|]. intros nitems.
  apply makes_run_calls_silent_bind.
  { apply for_list_silent. intros. apply init_silent. }
  intros items.
  apply makes_run_calls_silent_bind.
  { apply for_list_silent. by intros ?? ??? [= <- _]. }
  intros tracks.
  destruct (negb _); [by apply makes_run_calls_early|].
  apply makes_run_calls_silent_bind.
  { destruct tracks; by intros ??? [= <- _]. }
  intros track.
  apply makes_run_calls_silent_bind; [by intros ??? [= <- _]|].
  intros ntrackitems.
  apply makes_run_calls_silent_bind.
  { apply for_list_silent. intros titemid _. apply emits_silent.
    apply emits_bind; [apply emits_ask|]. intros itemref.
    apply emits_silent, init_silent. }
  intros trackitems. apply run_replicate_calls.
Qed.

Lemma run_makes_run_calls : makes_run_calls (run h).
Proof.
  unfold run.
  apply makes_run_calls_silent_bind; [apply userInputs_silent|].
  intros [| |uin]; try by apply makes_run_calls_early.
  destruct (PTKutils.get uin "ndups") as [ndups|];
    [|by apply makes_run_calls_early].
  case_bool_decide; [by apply makes_run_calls_early|].
  destruct (PTKutils.get uin "nbetween") as [nbetween|];
    [|by apply makes_run_calls_early].
  case_bool_decide; [by apply makes_run_calls_early|].
  apply run_gather_calls.
Qed.

End RunCalls.

Lemma refresh_depth_app tr1 tr2 :
  refresh_depth (tr1 ++ tr2) = refresh_depth tr1 + refresh_depth tr2.
Proof.
  induction tr1 as [|c tr1 IH]; [done|].
  simpl. destruct c; lia.
Qed.

Lemma refresh_depth_not_PreventUIRefresh mid :
  Forall not_PreventUIRefresh mid -> refresh_depth mid = 0.
Proof.
  induction 1 as [|c mid Hc _ IH]; [done|].
  simpl. destruct c; try done. by destruct Hc.
Qed.

(** The refresh counter after [run]: unchanged when [run] returns, and
    either unchanged or left one higher when it raises an exception. *)
Lemma run_refresh_depth h tr tr' r :
  run h tr = (tr', r) ->
  match r with
  | inr _ => refresh_depth tr' = refresh_depth tr
  | inl _ =>
      refresh_depth tr' = refresh_depth tr \/
      refresh_depth tr' = refresh_depth tr + 1
  end.
Proof.
  intros (calls & -> & Hcalls)%run_makes_run_calls.
  rewrite refresh_depth_app.
  destruct r as [e|x]; simpl in Hcalls.
  - destruct Hcalls as [-> | (mid & -> & Hmid)]; [left; simpl; lia|].
    right. simpl. rewrite (refresh_depth_not_PreventUIRefresh mid Hmid). lia.
  - assert (Hx : x = Completed \/ calls = [])
      by (destruct x; auto).
    destruct Hx as [-> | ->]; [|simpl; lia].
    destruct Hcalls as (mid & -> & Hmid). simpl.
    rewrite refresh_depth_app, (refresh_depth_not_PreventUIRefresh mid Hmid).
    simpl. lia.
Qed.

(** C4, counterexample: on the project [project1], whose host rejects new
    markers, the first [create] of the last phase raises [ValueError]; [run]
    ends there, after [RPR_PreventUIRefresh(1)] and without
    [RPR_PreventUIRefresh(-1)]: the UI refresh stays suspended. *)
Lemma run_create_fails_counterexample :
  let result := run (host_of (project1 (true, "1,1") false)) [] in
  raised result = Some ValueError /\
  RPR_PreventUIRefresh 1 ∈ result.1 /\
  (RPR_PreventUIRefresh (-1) ∉ result.1) /\
  refresh_depth result.1 = 1.
Proof.
  intros result. split; [by vm_compute|].
  split; [by apply (bool_decide_unpack _); vm_compute|].
  split; [by apply (bool_decide_unpack _); vm_compute|].
  by vm_compute.
Qed.

(** C4, amended: the calls of a run, by the way it ends.  A run that comes
    to its end without an exception makes [RPR_PreventUIRefresh(1)], then
    calls that are not [RPR_PreventUIRefresh], then
    [RPR_PreventUIRefresh(-1)] and the redraw: the suspension is paired
    with one resumption.  A run that returns early makes no call.  A run
    that raises an exception makes either no call, or
    [RPR_PreventUIRefresh(1)] followed by calls that are not
    [RPR_PreventUIRefresh]: no resumption follows the suspension. *)
Theorem run_refresh_pairing h tr tr' r :
  run h tr = (tr', r) ->
  exists calls, tr' = tr ++ calls /\ run_calls r calls.
Proof. apply run_makes_run_calls. Qed.

Lemma run_refresh_pairing_witness :
  let h := host_of (project1 (true, "1,1") true) in
  exists tr' calls,
    run h [] = (tr', inr Completed) /\
    tr' = [] ++ calls /\ run_calls (inr Completed) calls.
Proof.
  intros h.
  assert (Hr : (run h []).2 = inr Completed) by (vm_compute; reflexivity).
  destruct (run h []) as [tr' r] eqn:E. simpl in Hr. subst r.
  destruct (run_refresh_pairing h [] tr' (inr Completed) E)
    as (calls & Htr & Hcalls).
  exists tr', calls. split; [reflexivity|]. split; [exact Htr|exact Hcalls].
Defined.
(** * Further properties of the script *)

Lemma Qc_lt_irrefl (x : Qc) : ~ (x < x)%Qc.
Proof. apply Qcle_not_lt, Qcle_refl. Qed.

Section NonRedundantMore.
Context (sigd : gmap Qc TempoTimeSigMarkerWrapper.t).

Local Abbreviation sigtimes_r := (sorted_reverse (elements (dom sigd))).

Lemma elem_of_differing_from_next l t_ :
  t_ ∈ differing_from_next sigd l <->
  exists l1 t' l2,
    l = l1 ++ t_ :: t' :: l2 /\
    equivalentSigs (sigd !!! t') (sigd !!! t_) = false.
Proof.
  induction l as [|x l IH]; [|destruct l as [|y l]].
  - split; [by intros ?%elem_of_nil|]. intros (l1 & ? & ? & H & _).
    by destruct l1.
  - split; [by intros ?%elem_of_nil|]. intros (l1 & ? & ? & H & _).
    destruct l1 as [|? [|? ?]]; done.
  - rewrite differing_from_next_cons2.
    destruct (equivalentSigs (sigd !!! y) (sigd !!! x)) eqn:E; cbn [negb].
    + rewrite IH. split.
      * intros (l1 & t' & l2 & -> & Ht). by exists (x :: l1), t', l2.
      * intros (l1 & t' & l2 & Hl & Ht). destruct l1 as [|x' l1].
        -- simpl in Hl. simplify_eq. congruence.
        -- simpl in Hl. simplify_eq. by exists l1, t', l2.
    + rewrite elem_of_cons, IH. split.
      * intros [-> | (l1 & t' & l2 & -> & Ht)].
        -- by exists [], y, l.
        -- by exists (x :: l1), t', l2.
      * intros (l1 & t' & l2 & Hl & Ht). destruct l1 as [|x' l1].
        -- simpl in Hl. simplify_eq. by left.
        -- simpl in Hl. simplify_eq. right. by exists l1, t', l2.
Qed.

Lemma sigtimes_r_adjacent t' t_ :
  (exists l1 l2, sigtimes_r = l1 ++ t_ :: t' :: l2) <->
  t_ ∈ dom sigd /\ is_predecessor sigd t' t_.
Proof.
  pose proof (sigtimes_r_sorted sigd) as Hsorted.
  pose proof (sigtimes_r_NoDup sigd) as Hnodup.
  split.
  - intros (l1 & l2 & Hl). rewrite Hl in Hsorted, Hnodup.
    assert (Hin : forall u, u ∈ dom sigd <-> u ∈ l1 ++ t_ :: t' :: l2).
    { intros u. by rewrite <- Hl, elem_of_sigtimes_r. }
    pose proof (fun x1 x2 => StronglySorted_app_1_elem_of _ _ _ x1 x2 Hsorted) as Hl1.
    apply StronglySorted_app_1_r, StronglySorted_cons in Hsorted as [Hle Hs].
    apply StronglySorted_cons in Hs as [Hle' _].
    apply NoDup_app in Hnodup as (_ & _ & Hnodup).
    apply NoDup_cons in Hnodup as [Hne _].
    rewrite Forall_forall in Hle, Hle'. unfold flip in *.
    split; [apply Hin, elem_of_app; right; by left|].
    split; [apply Hin, elem_of_app; right; right; by left|]. split.
    + destruct (Qcle_lt_or_eq _ _ (Hle t' ltac:(by left))) as [?| ->]; [done|].
      destruct Hne. by left.
    + intros u [Hu|Hu]%Hin%elem_of_app Hlt.
      * specialize (Hl1 u t_ Hu ltac:(by left)). simpl in Hl1.
        by apply Qcle_not_lt in Hl1.
      * apply elem_of_cons in Hu as [->|Hu]; [by apply Qc_lt_irrefl in Hlt|].
        apply elem_of_cons in Hu as [->|Hu]; [apply Qcle_refl|by apply Hle'].
  - intros (Ht & Ht' & Hlt & Hpred).
    apply elem_of_sigtimes_r, list_elem_of_split in Ht as (l1 & rest & Hl).
    rewrite Hl in Hsorted, Hnodup.
    assert (Hin : forall u, u ∈ dom sigd <-> u ∈ l1 ++ t_ :: rest).
    { intros u. by rewrite <- Hl, elem_of_sigtimes_r. }
    pose proof (fun x1 x2 => StronglySorted_app_1_elem_of _ _ _ x1 x2 Hsorted) as Hl1.
    apply StronglySorted_app_1_r, StronglySorted_cons in Hsorted as [Hle Hs].
    apply NoDup_app in Hnodup as (_ & _ & Hnodup).
    apply NoDup_cons in Hnodup as [Hne _].
    rewrite Forall_forall in Hle. unfold flip in *.
    assert (Hrest : t' ∈ rest).
    { apply Hin, elem_of_app in Ht' as [Hu|Hu].
      - specialize (Hl1 t' t_ Hu ltac:(by left)). simpl in Hl1.
        by apply Qcle_not_lt in Hl1.
      - apply elem_of_cons in Hu as [->|Hu]; [by apply Qc_lt_irrefl in Hlt|done]. }
    destruct rest as [|t'' l2]; [by apply elem_of_nil in Hrest|].
    exists l1, l2. rewrite Hl. do 3 f_equal.
    apply StronglySorted_cons in Hs as [Hle' _].
    rewrite Forall_forall in Hle'. unfold flip in *.
    apply Qcle_antisym.
    + apply Hpred; [apply Hin, elem_of_app; right; right; by left|].
      destruct (Qcle_lt_or_eq _ _ (Hle t'' ltac:(by left))) as [?| ->]; [done|].
      destruct Hne. by left.
    + apply elem_of_cons in Hrest as [->|?]; [apply Qcle_refl|by apply Hle'].
Qed.

(** X3: what [getNonRedundantSigTimes] keeps.  A time is in the list
    returned exactly when it is a key of the map, an earlier key exists,
    and the marker under the key just before it differs from its own
    marker in tempo or time signature. *)
Theorem getNonRedundantSigTimes_elem_of t_ :
  t_ ∈ getNonRedundantSigTimes sigd <->
  t_ ∈ dom sigd /\
  exists t', is_predecessor sigd t' t_ /\
             equivalentSigs (sigd !!! t') (sigd !!! t_) = false.
Proof.
  rewrite getNonRedundantSigTimes_unfold, elem_of_reverse,
    elem_of_differing_from_next.
  split.
  - intros (l1 & t' & l2 & Hl & Ht).
    destruct (proj1 (sigtimes_r_adjacent t' t_)) as [? ?]; [by eauto|].
    split; [done|]. by exists t'.
  - intros (Hdom & t' & Hpred & Ht).
    destruct (proj2 (sigtimes_r_adjacent t' t_)) as (l1 & l2 & Hl); [done|].
    by exists l1, t', l2.
Qed.

End NonRedundantMore.

Lemma StronglySorted_reverse {A} (R : relation A) l :
  StronglySorted R l -> StronglySorted (flip R) (reverse l).
Proof.
  induction 1 as [|x l Hs IH Hx]; [constructor|].
  rewrite reverse_cons. apply StronglySorted_app_2; [|done|repeat constructor].
  intros x1 x2 Hx1 ->%list_elem_of_singleton. rewrite elem_of_reverse in Hx1.
  rewrite Forall_forall in Hx. unfold flip. by apply Hx.
Qed.

Lemma StronglySorted_Qcle_NoDup l :
  StronglySorted (flip Qcle) l -> NoDup l -> StronglySorted (flip Qclt) l.
Proof.
  induction 1 as [|x l Hs IH Hx]; intros Hnd; [constructor|].
  apply NoDup_cons in Hnd as [Hx' Hnd]. constructor; [by apply IH|].
  rewrite Forall_forall in Hx |- *. intros y Hy. unfold flip in *.
  destruct (Qcle_lt_or_eq _ _ (Hx y Hy)) as [?| ->]; done.
Qed.

Section NonRedundantOrder.
Context (sigd : gmap Qc TempoTimeSigMarkerWrapper.t).

(** X2: the list returned by [getNonRedundantSigTimes] is in strictly
    ascending order, whatever the marker map: no time occurs twice. *)
Theorem getNonRedundantSigTimes_ascending :
  StronglySorted Qclt (getNonRedundantSigTimes sigd).
Proof.
  rewrite getNonRedundantSigTimes_unfold.
  apply (StronglySorted_reverse (flip Qclt)).
  apply (StronglySorted_sublist _ _ (sorted_reverse (elements (dom sigd)))).
  - apply differing_from_next_sublist.
  - apply StronglySorted_Qcle_NoDup;
      [apply sigtimes_r_sorted | apply sigtimes_r_NoDup].
Qed.

Lemma differing_from_next_adjacent l l1 a b l2 :
  differing_from_next sigd l = l1 ++ a :: b :: l2 ->
  equivalentSigs (sigd !!! b) (sigd !!! a) = false.
Proof.
  revert l1. induction l as [|x l IH]; intros l1; [by destruct l1|].
  destruct l as [|y l]; [by destruct l1|].
  rewrite differing_from_next_cons2.
  destruct (equivalentSigs (sigd !!! y) (sigd !!! x)) eqn:E; cbn [negb];
    [apply IH|].
  destruct l1 as [|x' l1]; cbn [app]; intros [= <- HD]; [|by eapply IH].
  apply not_true_is_false. intros Eb.
  assert (equivalentSigs (sigd !!! y) (sigd !!! x) = true); [|congruence].
  eapply equivalentSigs_trans; [|exact Eb].
  by eapply differing_from_next_head.
Qed.

(** X4: two times that follow each other in the list returned by
    [getNonRedundantSigTimes] carry markers that differ in tempo or time
    signature. *)
Theorem getNonRedundantSigTimes_neighbours_differ l1 a b l2 :
  getNonRedundantSigTimes sigd = l1 ++ a :: b :: l2 ->
  equivalentSigs (sigd !!! a) (sigd !!! b) = false.
Proof.
  rewrite getNonRedundantSigTimes_unfold. intros H.
  apply (f_equal reverse) in H. rewrite reverse_involutive in H.
  rewrite reverse_app, !reverse_cons, <- !(assoc_L (++)) in H. simpl in H.
  by eapply differing_from_next_adjacent.
Qed.

End NonRedundantOrder.

(** X1: [equivalentSigs] is an equivalence relation on markers: reflexive,
    symmetric and transitive. *)
Theorem equivalentSigs_equivalence :
  Equivalence (fun s1 s2 => equivalentSigs s1 s2 = true).
Proof.
  split.
  - intros s. apply equivalentSigs_refl.
  - intros s1 s2. apply equivalentSigs_sym.
  - intros s1 s2 s3. apply equivalentSigs_trans.
Qed.

Lemma getNonRedundantSigTimes_neighbours_differ_witness :
  let sigd : gmap Qc TempoTimeSigMarkerWrapper.t :=
    <[f0 := sig_0]> (<[qc 4 1 := sig_4]> (<[qc 6 1 := sig_6]> ∅)) in
  getNonRedundantSigTimes sigd = [] ++ qc 4 1 :: qc 6 1 :: [] /\
  equivalentSigs (sigd !!! qc 4 1) (sigd !!! qc 6 1) = false.
Proof.
  intros sigd.
  assert (H : getNonRedundantSigTimes sigd = [] ++ qc 4 1 :: qc 6 1 :: [])
    by (by vm_compute).
  split; [exact H|].
  exact (getNonRedundantSigTimes_neighbours_differ sigd [] _ _ [] H).
Defined.

(** X5: applying [getNonRedundantSigTimes] to the map restricted to the
    times it returned gives the same list without its first time. *)
Theorem getNonRedundantSigTimes_second_pass
    (sigd : gmap Qc TempoTimeSigMarkerWrapper.t) :
  getNonRedundantSigTimes (restrict_to (getNonRedundantSigTimes sigd) sigd)
  = tail (getNonRedundantSigTimes sigd).
Proof. apply getNonRedundantSigTimes_restrict. Qed.

(** ** The methods of [TempoTimeSigMarkerWrapper] *)

Section WrapperMethods.
Context (h : Host).

Lemma clone_inr_more sig time_value is_offset deferred_ tr tr' cloned :
  TempoTimeSigMarkerWrapper.clone h sig time_value is_offset deferred_ tr
    = (tr', inr cloned) ->
  (f0 <= TempoTimeSigMarkerWrapper.timepos cloned)%Qc /\
  TempoTimeSigMarkerWrapper.ptidx cloned = Some (-1).
Proof.
  unfold TempoTimeSigMarkerWrapper.clone, TempoTimeSigMarkerWrapper.set.
  intros H. inv_M;
    match goal with
    | H : negb (bool_decide _) = false |- _ =>
        apply negb_false_iff, bool_decide_eq_true in H
    end; done.
Qed.

(** A marker that was read from the host is cloned from the answer of the
    host for its index. *)
Lemma clone_read_from_host_eq sig p time_value (is_offset deferred_ : bool)
    tr :
  TempoTimeSigMarkerWrapper.ptidx sig = Some p -> 0 <= p ->
  let newpos :=
    if is_offset then (TempoTimeSigMarkerWrapper.timepos sig + time_value)%Qc
    else time_value in
  let answer :=
    GetTempoTimeSigMarker h tr (TempoTimeSigMarkerWrapper.proj sig) p in
  let c :=
    RPR_SetTempoTimeSigMarker (gm_proj answer) (-1) newpos (-1)
      (Qc_of_Z (-1)) (TempoTimeSigMarkerWrapper.bpm sig)
      (TempoTimeSigMarkerWrapper.timesig_num sig)
      (TempoTimeSigMarkerWrapper.timesig_denom sig)
      (TempoTimeSigMarkerWrapper.lineartempo sig) in
  ((newpos < f0)%Qc ->
   TempoTimeSigMarkerWrapper.clone h sig time_value is_offset deferred_ tr
     = (tr, inl AssertionError)) /\
  ((f0 <= newpos)%Qc -> deferred_ = true ->
   exists cloned,
     TempoTimeSigMarkerWrapper.clone h sig time_value is_offset deferred_ tr
       = (tr, inr cloned) /\
     TempoTimeSigMarkerWrapper.retval cloned = Some (gm_retval answer)) /\
  ((f0 <= newpos)%Qc -> deferred_ = false ->
   exists cloned,
     TempoTimeSigMarkerWrapper.clone h sig time_value is_offset deferred_ tr
       = (tr ++ [c], inr cloned) /\
     TempoTimeSigMarkerWrapper.retval cloned
       = Some (SetTempoTimeSigMarker_ret h tr c)).
Proof.
  intros Hp Hp0 newpos answer c. subst c answer.
  assert (Hn : (if is_offset
                then (TempoTimeSigMarkerWrapper.timepos sig + time_value)%Qc
                else time_value) = newpos) by done.
  clearbody newpos.
  split; [|split]; intros Hpos; [|intros -> ..];
    unfold TempoTimeSigMarkerWrapper.clone, TempoTimeSigMarkerWrapper.set,
      TempoTimeSigMarkerWrapper.get_ptidx, TempoTimeSigMarkerWrapper.init,
      TempoTimeSigMarkerWrapper.initByIdSearch;
    rewrite Hp; unfold bind at 1, ret at 1;
    rewrite (proj2 (Z.leb_le 0 p) Hp0);
    unfold bind at 1, bind at 1, ask at 1, ret at 1;
    cbn [TempoTimeSigMarkerWrapper.timepos TempoTimeSigMarkerWrapper.deferred
         TempoTimeSigMarkerWrapper.retval TempoTimeSigMarkerWrapper.proj
         TempoTimeSigMarkerWrapper.measurepos
         TempoTimeSigMarkerWrapper.beatpos];
    rewrite Hn.
  - rewrite bool_decide_eq_false_2; [done|]. by apply Qclt_not_le.
  - rewrite bool_decide_eq_true_2 by done. cbn [negb].
    eexists. split; [reflexivity|done].
  - rewrite bool_decide_eq_true_2 by done. cbn [negb].
    eexists. split; [reflexivity|done].
Qed.

Lemma init_negative_eq proj_ p timepos_ bpm_ num denom tr :
  p < 0 ->
  let c :=
    RPR_SetTempoTimeSigMarker proj_ (-1) timepos_ (-1) (Qc_of_Z (-1)) bpm_
      num denom false in
  TempoTimeSigMarkerWrapper.init h proj_ (Some p) timepos_ bpm_ num denom tr
  = (tr ++ [c],
     if SetTempoTimeSigMarker_ret h tr c
     then inr {| TempoTimeSigMarkerWrapper.deferred := false;
                 TempoTimeSigMarkerWrapper.retval := None;
                 TempoTimeSigMarkerWrapper.proj := proj_;
                 TempoTimeSigMarkerWrapper.ptidx := None;
                 TempoTimeSigMarkerWrapper.timepos := timepos_;
                 TempoTimeSigMarkerWrapper.measurepos := -1;
                 TempoTimeSigMarkerWrapper.beatpos := Qc_of_Z (-1);
                 TempoTimeSigMarkerWrapper.bpm := bpm_;
                 TempoTimeSigMarkerWrapper.timesig_num := num;
                 TempoTimeSigMarkerWrapper.timesig_denom := denom;
                 TempoTimeSigMarkerWrapper.lineartempo := false |}
     else inl ValueError).
Proof.
  intros Hp c. unfold TempoTimeSigMarkerWrapper.init.
  rewrite (proj2 (Z.leb_gt 0 p) Hp).
  unfold TempoTimeSigMarkerWrapper.create, bind, ask, call, ret, raise.
  cbn. fold c. by destruct (SetTempoTimeSigMarker_ret h tr c).
Qed.

Lemma no_ptidx_AttributeError self :
  TempoTimeSigMarkerWrapper.ptidx self = None ->
  forall tr,
    TempoTimeSigMarkerWrapper.remove self tr = (tr, inl AttributeError) /\
    (forall use_timepos,
       TempoTimeSigMarkerWrapper.set h self use_timepos tr
         = (tr, inl AttributeError)) /\
    (forall time_value is_offset deferred_,
       TempoTimeSigMarkerWrapper.clone h self time_value is_offset deferred_ tr
         = (tr, inl AttributeError)).
Proof.
  intros Hp tr.
  unfold TempoTimeSigMarkerWrapper.remove, TempoTimeSigMarkerWrapper.set,
    TempoTimeSigMarkerWrapper.clone, TempoTimeSigMarkerWrapper.get_ptidx.
  rewrite Hp. split; [done|]. split; [|done].
  by intros [].
Qed.

End WrapperMethods.

(** X6: what [clone] copies.  Whenever [clone] returns, the clone has the
    tempo, the time signature and the linear-tempo flag of the marker it
    was made from, to which it is therefore equivalent; its time position
    is the marker's position plus [time_value], or [time_value] itself when
    [is_offset] is false, and is not negative; its index is [-1]. *)
Theorem clone_copies_marker h sig time_value (is_offset deferred_ : bool)
    tr tr' cloned :
  TempoTimeSigMarkerWrapper.clone h sig time_value is_offset deferred_ tr
    = (tr', inr cloned) ->
  TempoTimeSigMarkerWrapper.timepos cloned
    = (if is_offset
       then (TempoTimeSigMarkerWrapper.timepos sig + time_value)%Qc
       else time_value) /\
  (f0 <= TempoTimeSigMarkerWrapper.timepos cloned)%Qc /\
  TempoTimeSigMarkerWrapper.ptidx cloned = Some (-1) /\
  TempoTimeSigMarkerWrapper.bpm cloned = TempoTimeSigMarkerWrapper.bpm sig /\
  TempoTimeSigMarkerWrapper.timesig_num cloned
    = TempoTimeSigMarkerWrapper.timesig_num sig /\
  TempoTimeSigMarkerWrapper.timesig_denom cloned
    = TempoTimeSigMarkerWrapper.timesig_denom sig /\
  TempoTimeSigMarkerWrapper.lineartempo cloned
    = TempoTimeSigMarkerWrapper.lineartempo sig /\
  equivalentSigs sig cloned = true.
Proof.
  intros H.
  pose proof (clone_inr h _ _ _ _ _ _ _ H) as (Htp & Hbpm & Hn & Hd & Hl).
  pose proof (clone_inr_more h _ _ _ _ _ _ _ H) as [Hpos Hidx].
  repeat (split; [done|]).
  by apply equivalentSigs_true.
Qed.

Lemma clone_copies_marker_witness :
  let h := host_of (project1 (true, "1,1") true) in
  exists cloned,
    TempoTimeSigMarkerWrapper.clone h sig_4 (qc 3 1) true true []
      = ([], inr cloned) /\
    TempoTimeSigMarkerWrapper.timepos cloned = qc 7 1 /\
    equivalentSigs sig_4 cloned = true.
Proof.
  intros h.
  set (result := TempoTimeSigMarkerWrapper.clone h sig_4 (qc 3 1) true true []).
  exists (default sig_4 (returned result)).
  assert (E : result = ([], inr (default sig_4 (returned result))))
    by (by vm_compute).
  split; [exact E|].
  destruct (clone_copies_marker h sig_4 (qc 3 1) true true [] [] _ E)
    as (Htp & _ & _ & _ & _ & _ & _ & Heq).
  split; [|exact Heq]. rewrite Htp. by apply Qc_is_canon.
Defined.

(** X7: the calls of [clone] on a marker that was read from the host (its
    index is not negative).  When the new time position is negative,
    [clone] raises [AssertionError] and makes no call.  Otherwise a
    deferred clone makes no call, and a clone that is not deferred makes
    exactly one call: [RPR_SetTempoTimeSigMarker] with the index [-1], the
    new time position and the tempo and time signature of the marker. *)
Theorem clone_host_calls h sig p time_value (is_offset deferred_ : bool) tr :
  TempoTimeSigMarkerWrapper.ptidx sig = Some p -> 0 <= p ->
  let newpos :=
    if is_offset then (TempoTimeSigMarkerWrapper.timepos sig + time_value)%Qc
    else time_value in
  let answer :=
    GetTempoTimeSigMarker h tr (TempoTimeSigMarkerWrapper.proj sig) p in
  let c :=
    RPR_SetTempoTimeSigMarker (gm_proj answer) (-1) newpos (-1)
      (Qc_of_Z (-1)) (TempoTimeSigMarkerWrapper.bpm sig)
      (TempoTimeSigMarkerWrapper.timesig_num sig)
      (TempoTimeSigMarkerWrapper.timesig_denom sig)
      (TempoTimeSigMarkerWrapper.lineartempo sig) in
  ((newpos < f0)%Qc ->
   TempoTimeSigMarkerWrapper.clone h sig time_value is_offset deferred_ tr
     = (tr, inl AssertionError)) /\
  ((f0 <= newpos)%Qc -> deferred_ = true ->
   exists cloned,
     TempoTimeSigMarkerWrapper.clone h sig time_value is_offset deferred_ tr
       = (tr, inr cloned) /\
     TempoTimeSigMarkerWrapper.retval cloned = Some (gm_retval answer)) /\
  ((f0 <= newpos)%Qc -> deferred_ = false ->
   exists cloned,
     TempoTimeSigMarkerWrapper.clone h sig time_value is_offset deferred_ tr
       = (tr ++ [c], inr cloned) /\
     TempoTimeSigMarkerWrapper.retval cloned
       = Some (SetTempoTimeSigMarker_ret h tr c)).
Proof. apply clone_read_from_host_eq. Qed.

Lemma clone_host_calls_witness :
  let h := host_of (project1 (true, "1,1") true) in
  TempoTimeSigMarkerWrapper.clone h sig_4 (qc (-5) 1) true false []
    = ([], inl AssertionError) /\
  exists cloned,
    TempoTimeSigMarkerWrapper.clone h sig_4 (qc 3 1) true false []
    = ([] ++ [RPR_SetTempoTimeSigMarker 0 (-1) (qc 4 1 + qc 3 1)%Qc (-1)
                (Qc_of_Z (-1)) (qc 100 1) 4 4 false], inr cloned).
Proof.
  intros h. split.
  - destruct (clone_host_calls h sig_4 1 (qc (-5) 1) true false [])
      as (Hneg & _ & _); [done|lia|].
    apply Hneg. by vm_compute.
  - destruct (clone_host_calls h sig_4 1 (qc 3 1) true false [])
      as (_ & _ & Hcall); [done|lia|].
    destruct Hcall as (cloned & Hrun & _); [by vm_compute|done|].
    exists cloned. exact Hrun.
Defined.

(** X8: a wrapper constructed with a negative index.  The constructor
    creates the marker at once, by one call of [RPR_SetTempoTimeSigMarker]
    with the index [-1], and raises [ValueError] when the host refuses it.
    It never assigns the attribute [ptidx]: on the wrapper it returns,
    [remove], [set] and [clone] raise [AttributeError] and make no call. *)
Theorem init_negative_index h proj_ p timepos_ bpm_ num denom tr :
  p < 0 ->
  let c :=
    RPR_SetTempoTimeSigMarker proj_ (-1) timepos_ (-1) (Qc_of_Z (-1)) bpm_
      num denom false in
  (SetTempoTimeSigMarker_ret h tr c = false ->
   TempoTimeSigMarkerWrapper.init h proj_ (Some p) timepos_ bpm_ num denom tr
     = (tr ++ [c], inl ValueError)) /\
  (SetTempoTimeSigMarker_ret h tr c = true ->
   exists self,
     TempoTimeSigMarkerWrapper.init h proj_ (Some p) timepos_ bpm_ num denom
       tr = (tr ++ [c], inr self) /\
     forall tr1,
       TempoTimeSigMarkerWrapper.remove self tr1 = (tr1, inl AttributeError) /\
       (forall use_timepos,
          TempoTimeSigMarkerWrapper.set h self use_timepos tr1
            = (tr1, inl AttributeError)) /\
       (forall time_value is_offset deferred_,
          TempoTimeSigMarkerWrapper.clone h self time_value is_offset
            deferred_ tr1 = (tr1, inl AttributeError))).
Proof.
  intros Hp c. pose proof (init_negative_eq h proj_ p timepos_ bpm_ num denom
                             tr Hp) as Hinit.
  cbv zeta in Hinit. fold c in Hinit. split.
  - intros Hret. by rewrite Hret in Hinit.
  - intros Hret. rewrite Hret in Hinit. eexists. split; [exact Hinit|].
    by apply no_ptidx_AttributeError.
Qed.

Lemma init_negative_index_witness :
  let h := host_of (project1 (true, "1,1") true) in
  exists self,
    TempoTimeSigMarkerWrapper.init h 0 (Some (-1)) (qc 2 1) (qc 90 1) 3 4 []
      = ([] ++ [RPR_SetTempoTimeSigMarker 0 (-1) (qc 2 1) (-1) (Qc_of_Z (-1))
                  (qc 90 1) 3 4 false], inr self) /\
    TempoTimeSigMarkerWrapper.remove self [] = ([], inl AttributeError).
Proof.
  intros h.
  destruct (init_negative_index h 0 (-1) (qc 2 1) (qc 90 1) 3 4 [])
    as [_ Hok]; [lia|].
  destruct Hok as (self & Hinit & Hself); [done|].
  exists self. split; [exact Hinit|]. apply Hself.
Defined.

(** ** Exceptions of loops *)

Lemma for_each_inl {A St} (l : list A) (body : A -> St -> M St) s tr tr' e :
  for_each l body s tr = (tr', inl e) ->
  exists x s1 tr1, x ∈ l /\ body x s1 tr1 = (tr', inl e).
Proof.
  revert s tr. induction l as [|x l IH]; intros s tr H; simpl in H.
  - by inv_M.
  - apply bind_inl in H as [H|(tr1 & s1 & _ & H)].
    + exists x, s, tr. split; [by left|done].
    + apply IH in H as (y & s2 & tr2 & Hy & H).
      exists y, s2, tr2. split; [by right|done].
Qed.

Lemma for_list_inl {A B} (l : list A) (f : A -> M B) tr tr' e :
  for_list l f tr = (tr', inl e) ->
  exists x tr1, x ∈ l /\ f x tr1 = (tr', inl e).
Proof.
  revert tr. induction l as [|x l IH]; intros tr H; simpl in H.
  - by inv_M.
  - apply bind_inl in H as [H|(tr1 & y & _ & H)].
    + exists x, tr. split; [by left|done].
    + apply bind_inl in H as [H|(tr2 & ys & _ & H)]; [|by inv_M].
      apply IH in H as (z & tr3 & Hz & H).
      exists z, tr3. split; [by right|done].
Qed.

(** ** The constructor of [MediaItemReplicator], continued *)

Section InitMore.
Context (h : Host).

Lemma init_inl proj_ itemid l b tr tr' e :
  MediaItemReplicator.init h proj_ itemid l b tr = (tr', inl e) ->
  tr' = tr /\ e = ZeroDivisionError.
Proof.
  intros H. split; [by eapply init_silent|].
  unfold MediaItemReplicator.init in H. inv_M; done.
Qed.

Lemma init_zero_posbpm proj_ itemid l (b : bool) tr :
  let iid_ := if b then GetSelectedMediaItem h tr proj_ itemid else itemid in
  let pos_ := GetMediaItemInfo_Value h tr iid_ "D_POSITION" in
  TimeMap2_GetDividedBpmAtTime h tr proj_ pos_ = f0 ->
  MediaItemReplicator.init h proj_ itemid l b tr = (tr, inl ZeroDivisionError).
Proof.
  intros iid_ pos_ Hbpm. unfold MediaItemReplicator.init.
  destruct b; unfold bind, ask, ret, fdiv; subst iid_ pos_; simpl in *;
    case_bool_decide; simpl; rewrite Hbpm; by rewrite decide_True.
Qed.

Lemma init_inr proj_ itemid l b tr tr' self :
  MediaItemReplicator.init h proj_ itemid l b tr = (tr', inr self) ->
  MediaItemReplicator.proj self = proj_ /\
  MediaItemReplicator.tempotimesiglist self = l /\
  MediaItemReplicator.end_ self
    = (MediaItemReplicator.pos self + MediaItemReplicator.length self)%Qc /\
  MediaItemReplicator.posbpm self <> f0 /\
  MediaItemReplicator.endbpm self <> f0 /\
  MediaItemReplicator.intime self
    = (f60 / MediaItemReplicator.posbpm self
       * MediaItemReplicator.posbeats self)%Qc /\
  MediaItemReplicator.outtime self
    = ((Qc_of_Z (MediaItemReplicator.endcml self)
        - MediaItemReplicator.endbeats self)
       * (f60 / MediaItemReplicator.endbpm self))%Qc.
Proof.
  unfold MediaItemReplicator.init. intros H. inv_M; done.
Qed.

Lemma clone_not_ZeroDivisionError sig time_value is_offset deferred_ tr tr' :
  TempoTimeSigMarkerWrapper.clone h sig time_value is_offset deferred_ tr
  <> (tr', inl ZeroDivisionError).
Proof.
  unfold TempoTimeSigMarkerWrapper.clone, TempoTimeSigMarkerWrapper.set,
    TempoTimeSigMarkerWrapper.init, TempoTimeSigMarkerWrapper.initByIdSearch,
    TempoTimeSigMarkerWrapper.create, TempoTimeSigMarkerWrapper.get_ptidx.
  intros H. inv_M; done.
Qed.

Lemma replicate_ZeroDivisionError self t0 ndups nbetween tr tr' :
  MediaItemReplicator.replicate h self t0 ndups nbetween tr
    = (tr', inl ZeroDivisionError) ->
  MediaItemReplicator.posbpm self = f0.
Proof.
  unfold MediaItemReplicator.replicate, MediaItemReplicator.lead_in.
  cbn [TempoTimeSigMarkerWrapper.init]. intros H.
  repeat match goal with
  | H : bind _ _ _ = (_, inl _) |- _ =>
      apply bind_inl in H as [H|(? & ? & _ & H)]
  end; try (by inv_M).
  - unfold MediaItemReplicator.clone_itemsigs in H.
    apply for_each_inl in H as (sig & dd & trl & _ & H).
    apply bind_inl in H as [H|(? & ? & _ & H)]; [|by inv_M].
    by apply clone_not_ZeroDivisionError in H.
  - apply for_each_inl in H as (xx & [tt_ dd] & trl & _ & H).
    unfold MediaItemReplicator.duplicate, MediaItemReplicator.lead_in in H.
    cbn [TempoTimeSigMarkerWrapper.init] in H.
    repeat match goal with
    | H : bind _ _ _ = (_, inl _) |- _ =>
        apply bind_inl in H as [H|(? & ? & _ & H)]
    end; try (by inv_M).
    unfold MediaItemReplicator.clone_itemsigs in H.
    apply for_each_inl in H as (sig & dd' & trl' & _ & H).
    apply bind_inl in H as [H|(? & ? & _ & H)]; [|by inv_M].
    by apply clone_not_ZeroDivisionError in H.
Qed.

End InitMore.

(** X9: the exceptions of the constructor of [MediaItemReplicator].  The
    constructor makes no call that changes the project; the only exception
    it raises is [ZeroDivisionError]; and it does raise it when the host
    reports the tempo zero at the start of the item. *)
Theorem init_raises_ZeroDivisionError h proj_ itemid l (id_is_index : bool)
    tr :
  (forall tr' e r,
     MediaItemReplicator.init h proj_ itemid l id_is_index tr = (tr', r) ->
     tr' = tr /\ (r = inl e -> e = ZeroDivisionError)) /\
  (let iid_ :=
     if id_is_index then GetSelectedMediaItem h tr proj_ itemid else itemid in
   let pos_ := GetMediaItemInfo_Value h tr iid_ "D_POSITION" in
   TimeMap2_GetDividedBpmAtTime h tr proj_ pos_ = f0 ->
   MediaItemReplicator.init h proj_ itemid l id_is_index tr
     = (tr, inl ZeroDivisionError)).
Proof.
  split.
  - intros tr' e r H. split; [by eapply init_silent|].
    intros ->. by apply init_inl in H as [_ ->].
  - apply init_zero_posbpm.
Qed.

Lemma init_raises_ZeroDivisionError_witness :
  let h := host_of project_zero_tempo in
  MediaItemReplicator.init h 0 0 [] true [] = ([], inl ZeroDivisionError).
Proof.
  intros h.
  destruct (init_raises_ZeroDivisionError h 0 0 [] true []) as [_ Hzero].
  apply Hzero. by vm_compute.
Defined.

(** X10: what the constructor of [MediaItemReplicator] guarantees.  On the
    item it returns, the end is the position plus the length (also after
    the end-of-measure nudge), the two tempi are not zero, the lead-in time
    is [60 / posbpm * posbeats], the time left in the last measure is
    [(endcml - endbeats) * (60 / endbpm)], and the marker list is the one
    passed in.  Hence [replicate] never raises [ZeroDivisionError] on such
    an item. *)
Theorem init_item_invariants h proj_ itemid l (id_is_index : bool) tr tr'
    self :
  MediaItemReplicator.init h proj_ itemid l id_is_index tr = (tr', inr self) ->
  MediaItemReplicator.proj self = proj_ /\
  MediaItemReplicator.tempotimesiglist self = l /\
  MediaItemReplicator.end_ self
    = (MediaItemReplicator.pos self + MediaItemReplicator.length self)%Qc /\
  MediaItemReplicator.posbpm self <> f0 /\
  MediaItemReplicator.endbpm self <> f0 /\
  MediaItemReplicator.intime self
    = (f60 / MediaItemReplicator.posbpm self
       * MediaItemReplicator.posbeats self)%Qc /\
  MediaItemReplicator.outtime self
    = ((Qc_of_Z (MediaItemReplicator.endcml self)
        - MediaItemReplicator.endbeats self)
       * (f60 / MediaItemReplicator.endbpm self))%Qc /\
  forall h' t0 ndups nbetween tr1 tr2,
    MediaItemReplicator.replicate h' self t0 ndups nbetween tr1
    <> (tr2, inl ZeroDivisionError).
Proof.
  intros (? & ? & ? & Hbpm & ? & ? & ?)%init_inr.
  repeat (split; [done|]).
  intros h' t0 ndups nbetween tr1 tr2 Hrep%replicate_ZeroDivisionError. done.
Qed.

Lemma init_item_invariants_witness :
  let h := host_of (project1 (true, "1,1") true) in
  exists self,
    MediaItemReplicator.init h 0 0 [sig_0] true [] = ([], inr self) /\
    MediaItemReplicator.end_ self
      = (MediaItemReplicator.pos self + MediaItemReplicator.length self)%Qc /\
    MediaItemReplicator.posbpm self <> f0.
Proof.
  intros h.
  set (result := MediaItemReplicator.init h 0 0 [sig_0] true []).
  exists (default (item_at_4 []) (returned result)).
  assert (E : result = ([], inr (default (item_at_4 []) (returned result))))
    by (by vm_compute).
  split; [exact E|].
  destruct (init_item_invariants h 0 0 [sig_0] true [] [] _ E)
    as (_ & _ & Hend & Hbpm & _).
  split; [exact Hend|exact Hbpm].
Defined.

(** ** The calls of [replicate] *)


Lemma emits_bind_ret {A B} (P : HostCall -> Prop) (a : A) (k : A -> M B) :
  emits P (k a) -> emits P (bind (ret a) k).
Proof. intros H tr tr' r. exact (H tr tr' r). Qed.

Section ReplicateCalls.
Context (h : Host) (self : MediaItemReplicator.t).

Lemma wrapper_init_emits_own proj_ ptidx_ timepos_ bpm_ num denom :
  emits (replicate_call self)
    (TempoTimeSigMarkerWrapper.init h proj_ ptidx_ timepos_ bpm_ num denom).
Proof.
  unfold TempoTimeSigMarkerWrapper.init,
    TempoTimeSigMarkerWrapper.initByIdSearch, TempoTimeSigMarkerWrapper.create.
  repeat emits_step. by apply emits_call.
Qed.

Lemma clone_emits_own sig time_value is_offset deferred_ :
  emits (replicate_call self)
    (TempoTimeSigMarkerWrapper.clone h sig time_value is_offset deferred_).
Proof.
  unfold TempoTimeSigMarkerWrapper.clone.
  apply emits_bind.
  { unfold TempoTimeSigMarkerWrapper.get_ptidx. repeat emits_step. }
  intros p. apply emits_bind; [apply wrapper_init_emits_own|]. intros cloned.
  destruct (negb (bool_decide _)); [apply emits_raise|].
  destruct (negb deferred_); [|apply emits_ret].
  unfold TempoTimeSigMarkerWrapper.set, TempoTimeSigMarkerWrapper.get_ptidx.
  cbn [TempoTimeSigMarkerWrapper.ptidx]. apply emits_bind_ret.
  repeat emits_step. by apply emits_call.
Qed.

Lemma replicate_emits_own t0 ndups nbetween :
  emits (replicate_call self)
    (MediaItemReplicator.replicate h self t0 ndups nbetween).
Proof.
  unfold MediaItemReplicator.replicate, MediaItemReplicator.duplicate,
    MediaItemReplicator.clone_itemsigs, MediaItemReplicator.lead_in.
  repeat emits_step;
    try apply wrapper_init_emits_own; try apply clone_emits_own;
    apply emits_call; by cbn.
Qed.





End ReplicateCalls.

(** ** The keys of the marker map of [replicate] *)

Section ReplicateKeys.
Context (h : Host) (self : MediaItemReplicator.t).






End ReplicateKeys.

(** ** The markers of the marker map of [replicate] *)




Section ReplicateMarkers.
Context (h : Host) (self : MediaItemReplicator.t).






End ReplicateMarkers.






(** ** What [run] does before and after its validation *)

Lemma bind_silent_cases {A B} (c : M A) (k : A -> M B) tr tr' r :
  silent c -> bind c k tr = (tr', r) ->
  (exists e, c tr = (tr, inl e) /\ tr' = tr /\ r = inl e) \/
  (exists a, c tr = (tr, inr a) /\ k a tr = (tr', r)).
Proof.
  intros Hc. unfold bind.
  destruct (c tr) as [tr1 [e|a]] eqn:E; pose proof (Hc _ _ _ E) as ->.
  - intros [= <- <-]. left. by exists e.
  - intros H. right. by exists a.
Qed.

Lemma for_list_eq {A B} (l : list A) (f : A -> M B) (g : A -> B) tr :
  (forall x, x ∈ l -> f x tr = (tr, inr (g x))) ->
  for_list l f tr = (tr, inr (g <$> l)).
Proof.
  induction l as [|x l IH]; intros Hf; [done|]. simpl.
  rewrite (bind_eq _ _ _ _ _ (Hf x ltac:(by left))).
  rewrite (bind_eq _ _ _ _ _ (IH ltac:(intros y Hy; apply Hf; by right))).
  done.
Qed.

Lemma for_list_inr_silent {A B} (l : list A) (f : A -> M B) tr tr' ys :
  (forall x, x ∈ l -> silent (f x)) ->
  for_list l f tr = (tr', inr ys) ->
  tr' = tr /\ Forall2 (fun x y => f x tr = (tr, inr y)) l ys.
Proof.
  intros Hf H. split; [by eapply for_list_silent|].
  revert ys H. induction l as [|x l IH]; intros ys H; simpl in H.
  - inv_M. constructor.
  - apply bind_inr in H as (tr1 & y & Hy & H).
    pose proof (Hf x ltac:(by left) _ _ _ Hy) as ->.
    apply bind_inr in H as (tr2 & ys' & Hys & [= <- <-]).
    constructor; [done|]. apply IH; [|done].
    intros z Hz. apply Hf. by right.
Qed.

Section RunInversion.
Context (h : Host).

Lemma wrapper_init_read tr sigid :
  0 <= sigid ->
  TempoTimeSigMarkerWrapper.init h 0 (Some sigid) f0 f0 0 0 tr
  = (tr, inr (read_marker h tr sigid)).
Proof.
  intros Hs. unfold TempoTimeSigMarkerWrapper.init.
  by rewrite (proj2 (Z.leb_le 0 sigid) Hs).
Qed.

Lemma run_read_markers tr :
  for_list (py_range (CountTempoTimeSigMarkers h tr 0))
    (fun sigid => TempoTimeSigMarkerWrapper.init h 0 (Some sigid) f0 f0 0 0)
    tr
  = (tr, inr (read_markers h tr)).
Proof.
  apply for_list_eq. intros sigid Hs%elem_of_py_range.
  by apply wrapper_init_read.
Qed.

Lemma init_iid proj_ itemid l (b : bool) tr tr' self :
  MediaItemReplicator.init h proj_ itemid l b tr = (tr', inr self) ->
  MediaItemReplicator.iid self
  = if b then GetSelectedMediaItem h tr proj_ itemid else itemid.
Proof.
  unfold MediaItemReplicator.init. intros H.
  apply bind_inr in H as (tr1 & iid_ & Hiid & H).
  assert (tr1 = tr /\
          iid_ = if b then GetSelectedMediaItem h tr proj_ itemid else itemid)
    as [-> <-] by (destruct b; by inv_M).
  clear Hiid. by inv_M.
Qed.

(** The selected items read by [run]: either a constructor raises
    [ZeroDivisionError], or the items are those the host lists. *)
Lemma run_read_items siglist tr tr' r :
  for_list (py_range (CountSelectedMediaItems h tr 0))
    (fun itemid => MediaItemReplicator.init h 0 itemid siglist true) tr
  = (tr', r) ->
  tr' = tr /\
  match r with
  | inl e => e = ZeroDivisionError
  | inr items =>
      (fun i => GetMediaItem_Track h tr (MediaItemReplicator.iid i))
        <$> items = selected_tracks h tr
  end.
Proof.
  intros H. split.
  { eapply for_list_silent; [|exact H]. intros. apply init_silent. }
  destruct r as [e|items].
  - apply for_list_inl in H as (x & tr1 & _ & H).
    by apply init_inl in H as [_ ->].
  - apply for_list_inr_silent in H as [_ H]; [|intros; apply init_silent].
    unfold selected_tracks.
    induction H as [|x y l ys Hxy _ IH]; [done|].
    simpl. f_equal; [|exact IH]. by rewrite (init_iid _ _ _ _ _ _ _ Hxy).
Qed.

Lemma run_read_trackitems siglist track tr tr' trackitems :
  for_list (py_range (CountTrackMediaItems h tr track))
    (fun titemid =>
       itemref <- ask (fun tr => GetTrackMediaItem h tr track titemid);;
       MediaItemReplicator.init h 0 itemref siglist false) tr
  = (tr', inr trackitems) ->
  tr' = tr /\
  Forall (fun item => MediaItemReplicator.tempotimesiglist item = siglist)
    trackitems /\
  length trackitems = Z.to_nat (CountTrackMediaItems h tr track).
Proof.
  intros H.
  assert (Hs : forall titemid,
            silent (itemref <- ask (fun tr => GetTrackMediaItem h tr track
                                                titemid);;
                    MediaItemReplicator.init h 0 itemref siglist false)).
  { intros titemid. apply emits_silent.
    apply emits_bind; [apply emits_ask|]. intros itemref.
    apply emits_silent, init_silent. }
  apply for_list_inr_silent in H as [-> H]; [|by intros].
  split; [done|]. split.
  - induction H as [|x y l ys Hxy _ IH]; constructor; [|done].
    apply bind_inr in Hxy as (tr1 & itemref & _ & Hxy).
    by apply init_tempotimesiglist in Hxy.
  - apply Forall2_length in H. by rewrite length_py_range in H.
Qed.

(** What has happened when [run] has made a call: the dialog was accepted
    with two integers that are not negative, the selected items lie on one
    track, and [run] has come to [run_replicate] with the markers and the
    items of this track as the host lists them. *)
Lemma run_inversion tr tr' r :
  run h tr = (tr', r) -> tr' <> tr ->
  exists uin ndups nbetween trackitems selectediids,
    PTKutils.userInputs h "Parameters" [("ndups", 1); ("nbetween", 1)] tr
      = (tr, inr (PTKutils.Map_ uin)) /\
    PTKutils.get uin "ndups" = Some ndups /\ 0 <= ndups /\
    PTKutils.get uin "nbetween" = Some nbetween /\ 0 <= nbetween /\
    size (list_to_set (selected_tracks h tr) : gset MediaTrack) = 1%nat /\
    Forall (fun item => MediaItemReplicator.tempotimesiglist item
                        = read_markers h tr) trackitems /\
    (CountTempoTimeSigMarkers h tr 0 <= 0 -> read_markers h tr = []) /\
    (forall track, head (selected_tracks h tr) = Some track ->
       length trackitems = Z.to_nat (CountTrackMediaItems h tr track)) /\
    run_replicate h (read_markers h tr) trackitems selectediids ndups nbetween
      tr = (tr', r).
Proof.
  unfold run. intros H Hne.
  apply bind_silent_cases in H; [|apply userInputs_silent].
  destruct H as [(e & _ & -> & _)|(uin' & Huin & H)]; [done|].
  destruct uin' as [| |uin]; [by inv_M..|].
  destruct (PTKutils.get uin "ndups") as [ndups|] eqn:Hnd; [|by inv_M].
  case_bool_decide as Hn0; [by inv_M|].
  destruct (PTKutils.get uin "nbetween") as [nbetween|] eqn:Hnb; [|by inv_M].
  case_bool_decide as Hb0; [by inv_M|].
  exists uin, ndups, nbetween.
  unfold run_gather in H.
  unfold bind at 1, ask at 1 in H.
  rewrite (bind_eq _ _ _ _ _ (run_read_markers tr)) in H.
  unfold bind at 1, ask at 1 in H.
  unfold bind at 1 in H.
  destruct (for_list _ _ tr) as [tr1 ritems] eqn:Hitems.
  apply run_read_items in Hitems as [-> Hitems].
  destruct ritems as [e|items]; [by inv_M|].
  assert (Htracks :
            for_list items
              (fun i => ask (fun tr => GetMediaItem_Track h tr
                                         (MediaItemReplicator.iid i))) tr
            = (tr, inr (selected_tracks h tr))).
  { rewrite <- Hitems. by apply for_list_eq. }
  rewrite (bind_eq _ _ _ _ _ Htracks) in H.
  case_bool_decide as Hsize; cbn [negb] in H; [|by inv_M].
  destruct (selected_tracks h tr) as [|track tracks] eqn:Hsel; [done|].
  unfold bind at 1, ret at 1 in H.
  unfold bind at 1, ask at 1 in H.
  unfold bind at 1 in H.
  destruct (for_list _ _ tr) as [tr1 rtrack] eqn:Htrack.
  destruct rtrack as [e|trackitems].
  { inv_M. destruct Hne. eapply for_list_silent; [|exact Htrack].
    intros titemid _. apply emits_silent.
    apply emits_bind; [apply emits_ask|]. intros itemref.
    apply emits_silent, init_silent. }
  apply run_read_trackitems in Htrack as (-> & Hlists & Hlen).
  exists trackitems, (MediaItemReplicator.iid <$> items).
  repeat (split; [done || lia|]).
  split.
  { intros Hnsig. unfold read_markers, py_range.
    by rewrite Z2Nat.nonpos. }
  split; [|done].
  by intros track' [= <-].
Qed.

End RunInversion.

Lemma emits_mono {A} (P Q : HostCall -> Prop) (c : M A) :
  (forall x, P x -> Q x) -> emits P c -> emits Q c.
Proof.
  intros HPQ Hc tr tr' r (calls & -> & Hcalls)%Hc. exists calls.
  split; [done|]. eapply Forall_impl; [exact Hcalls|exact HPQ].
Qed.

Lemma for_each_remove_eq (l : list TempoTimeSigMarkerWrapper.t) tr :
  Forall (fun sig => is_Some (TempoTimeSigMarkerWrapper.ptidx sig)) l ->
  for_each l (fun sig _ => TempoTimeSigMarkerWrapper.remove sig) tt tr
  = (tr ++ (delete_call <$> l), inr tt).
Proof.
  intros Hl. revert tr. induction Hl as [|sig l [p Hp] _ IH]; intros tr.
  - simpl. by rewrite app_nil_r.
  - cbn [for_each]. unfold bind at 1.
    unfold TempoTimeSigMarkerWrapper.remove at 1,
      TempoTimeSigMarkerWrapper.get_ptidx.
    rewrite Hp. unfold bind at 1, ret at 1, call at 1.
    rewrite IH. cbn [fmap list_fmap]. unfold delete_call at 2. rewrite Hp.
    by rewrite <- (assoc_L (++)).
Qed.

Lemma getNonRedundantSigTimes_empty : getNonRedundantSigTimes ∅ = [].
Proof. by vm_compute. Qed.

Section RunReplicate.
Context (h : Host).

Lemma read_markers_ptidx tr :
  Forall (fun sig => is_Some (TempoTimeSigMarkerWrapper.ptidx sig))
    (read_markers h tr).
Proof.
  unfold read_markers. apply Forall_fmap, Forall_forall. intros i _.
  by eexists.
Qed.

(** [run_replicate] begins by suspending the UI refresh, deleting the
    markers from the last to the first, and unselecting all items. *)
Lemma run_replicate_prefix siglist trackitems selectediids ndups nbetween
    tr tr' r :
  Forall (fun sig => is_Some (TempoTimeSigMarkerWrapper.ptidx sig)) siglist ->
  run_replicate h siglist trackitems selectediids ndups nbetween tr
    = (tr', r) ->
  exists rest,
    tr' = tr ++ [RPR_PreventUIRefresh 1]
             ++ (delete_call <$> reverse siglist)
             ++ [RPR_SelectAllMediaItems 0 false] ++ rest.
Proof.
  intros Hsigs. unfold run_replicate.
  unfold bind at 1, call at 1.
  rewrite (bind_eq _ _ _ _ _
             (for_each_remove_eq (reverse siglist) _
                ltac:(by apply Forall_reverse))).
  unfold bind at 1, call at 1. intros H.
  match type of H with
  | ?c ?tr0 = _ =>
      assert (Hc : emits (fun _ => True) c)
  end.
  { apply emits_bind.
    { apply emits_for_each. intros item [endt d].
      apply emits_bind; [|intros [? ?]; apply emits_ret].
      destruct (bool_decide _);
        eapply emits_mono, replicate_emits; done. }
    intros [endt d].
    apply emits_bind.
    { apply emits_for_each. intros t_ [].
      eapply emits_mono, create_emits. done. }
    intros []. repeat emits_step; by apply emits_call. }
  apply Hc in H as (rest & -> & _). exists rest.
  by rewrite <- !(assoc_L (++)).
Qed.

Lemma replicate_nil item t0 ndups nbetween tr :
  MediaItemReplicator.tempotimesiglist item = [] ->
  MediaItemReplicator.replicate h item t0 ndups nbetween tr
  = (tr, inl IndexError).
Proof. intros Hl. unfold MediaItemReplicator.replicate. by rewrite Hl. Qed.

(** On a project without markers. *)
Lemma run_replicate_no_markers trackitems selectediids ndups nbetween tr :
  Forall (fun item => MediaItemReplicator.tempotimesiglist item = [])
    trackitems ->
  run_replicate h [] trackitems selectediids ndups nbetween tr
  = if bool_decide (trackitems = [])
    then (tr ++ [RPR_PreventUIRefresh 1; RPR_SelectAllMediaItems 0 false;
                 RPR_PreventUIRefresh (-1); RPR_UpdateArrange],
          inr Completed)
    else (tr ++ [RPR_PreventUIRefresh 1; RPR_SelectAllMediaItems 0 false],
          inl IndexError).
Proof.
  intros Hitems. unfold run_replicate.
  unfold bind at 1, call at 1. cbn [reverse rev_append for_each].
  unfold bind at 1, ret at 1. unfold bind at 1, call at 1.
  destruct Hitems as [|item rest Hitem _].
  - rewrite bool_decide_eq_true_2 by done. cbn [for_each].
    unfold bind at 1, ret at 1. rewrite getNonRedundantSigTimes_empty.
    cbn [for_each]. unfold bind, ret, call.
    by rewrite <- !(assoc_L (++)).
  - rewrite bool_decide_eq_false_2 by done. cbn [for_each].
    unfold bind at 1. unfold bind at 1. unfold bind at 1.
    assert (Hr : forall n,
              MediaItemReplicator.replicate h item f0 n nbetween
                ((tr ++ [RPR_PreventUIRefresh 1])
                 ++ [RPR_SelectAllMediaItems 0 false])
              = ((tr ++ [RPR_PreventUIRefresh 1])
                 ++ [RPR_SelectAllMediaItems 0 false], inl IndexError))
      by (intros n; by apply replicate_nil).
    destruct (bool_decide _); rewrite Hr; by rewrite <- !(assoc_L (++)).
Qed.

End RunReplicate.

(** X15: a selection that does not lie on exactly one track.  When the
    dialog is accepted with two integers that are not negative and the
    tracks of the selected items, as the host lists them, are not exactly
    one track (nothing is selected, or items of several tracks are), [run]
    makes no call that changes the project: it returns at the usage error,
    unless the constructor of a selected item raised [ZeroDivisionError]
    before; with nothing selected it returns at the usage error. *)
Theorem run_usage_error h tr uin ndups nbetween :
  PTKutils.userInputs h "Parameters" [("ndups", 1); ("nbetween", 1)] tr
    = (tr, inr (PTKutils.Map_ uin)) ->
  PTKutils.get uin "ndups" = Some ndups -> 0 <= ndups ->
  PTKutils.get uin "nbetween" = Some nbetween -> 0 <= nbetween ->
  size (list_to_set (selected_tracks h tr) : gset MediaTrack) <> 1%nat ->
  exists r,
    run h tr = (tr, r) /\
    (r = inr UsageError \/ r = inl ZeroDivisionError) /\
    (CountSelectedMediaItems h tr 0 <= 0 -> r = inr UsageError).
Proof.
  intros Huin Hnd Hn0 Hnb Hb0 Hsize. unfold run.
  rewrite (bind_eq _ _ _ _ _ Huin), Hnd.
  rewrite bool_decide_eq_false_2 by lia. rewrite Hnb.
  rewrite bool_decide_eq_false_2 by lia.
  unfold run_gather. unfold bind at 1, ask at 1.
  rewrite (bind_eq _ _ _ _ _ (run_read_markers h tr)).
  unfold bind at 1, ask at 1. unfold bind at 1.
  assert (Hnone : CountSelectedMediaItems h tr 0 <= 0 ->
                  py_range (CountSelectedMediaItems h tr 0) = []).
  { intros Hle. unfold py_range. by rewrite Z2Nat.nonpos. }
  destruct (for_list _ _ tr) as [tr1 ritems] eqn:Hitems.
  pose proof (run_read_items h _ _ _ _ Hitems) as [Htr1 Hr]. subst tr1.
  destruct ritems as [e|items].
  - subst e. eexists. split; [done|]. split; [by right|].
    intros Hle. rewrite (Hnone Hle) in Hitems. done.
  - assert (Htracks :
              for_list items
                (fun i => ask (fun tr => GetMediaItem_Track h tr
                                           (MediaItemReplicator.iid i))) tr
              = (tr, inr (selected_tracks h tr))).
    { rewrite <- Hr. by apply for_list_eq. }
    rewrite (bind_eq _ _ _ _ _ Htracks).
    rewrite bool_decide_eq_false_2 by done.
    eexists. split; [done|]. split; [by left|done].
Qed.

Lemma run_usage_error_witness :
  run (host_of project_two_tracks) [] = ([], inr UsageError).
Proof.
  destruct (run_usage_error (host_of project_two_tracks) []
              [("ndups", 1); ("nbetween", 1)] 1 1)
    as (r & Hrun & _ & Hnone).
  - by vm_compute.
  - reflexivity.
  - lia.
  - reflexivity.
  - lia.
  - by vm_compute.
  - assert (H : (run (host_of project_two_tracks) []).2 = inr UsageError)
      by (vm_compute; reflexivity).
    rewrite Hrun in H. simpl in H. rewrite Hrun. by rewrite H.
Defined.

(** X16: [run] changes nothing before its input is validated.  Whenever
    [run] has made a call that changes the project or the UI, the dialog
    was accepted, both of its fields were read as integers that are not
    negative, and the selected items lie on exactly one track. *)
Theorem run_calls_need_valid_input h tr tr' r :
  run h tr = (tr', r) -> tr' <> tr ->
  exists uin ndups nbetween,
    PTKutils.userInputs h "Parameters" [("ndups", 1); ("nbetween", 1)] tr
      = (tr, inr (PTKutils.Map_ uin)) /\
    PTKutils.get uin "ndups" = Some ndups /\ 0 <= ndups /\
    PTKutils.get uin "nbetween" = Some nbetween /\ 0 <= nbetween /\
    size (list_to_set (selected_tracks h tr) : gset MediaTrack) = 1%nat.
Proof.
  intros Hrun Hne.
  destruct (run_inversion h tr tr' r Hrun Hne)
    as (uin & ndups & nbetween & _ & _ & ? & ? & ? & ? & ? & ? & _).
  by exists uin, ndups, nbetween.
Qed.

Lemma run_calls_need_valid_input_witness :
  let h := host_of (project1 (true, "1,1") true) in
  exists uin ndups nbetween,
    PTKutils.userInputs h "Parameters" [("ndups", 1); ("nbetween", 1)] []
      = ([], inr (PTKutils.Map_ uin)) /\
    PTKutils.get uin "ndups" = Some ndups /\ 0 <= ndups /\
    PTKutils.get uin "nbetween" = Some nbetween /\ 0 <= nbetween /\
    size (list_to_set (selected_tracks h []) : gset MediaTrack) = 1%nat.
Proof.
  intros h.
  apply (run_calls_need_valid_input h [] (run h []).1 (run h []).2).
  - by destruct (run h []).
  - intros Heq.
    assert (Hlen : length (run h []).1 <> 0%nat) by (by vm_compute).
    rewrite Heq in Hlen. exact (Hlen eq_refl).
Defined.

(** X17: the first calls of [run].  Whenever [run] has made a call, its
    calls begin with [RPR_PreventUIRefresh(1)], then the deletion of every
    marker that the host listed, from the last index to the first, then
    [RPR_SelectAllMediaItems(0, False)]: all markers are deleted before an
    item is moved or a marker is created. *)
Theorem run_deletes_markers_first h tr tr' r :
  run h tr = (tr', r) -> tr' <> tr ->
  exists rest,
    tr' = tr ++ [RPR_PreventUIRefresh 1]
             ++ (delete_call <$> reverse (read_markers h tr))
             ++ [RPR_SelectAllMediaItems 0 false] ++ rest.
Proof.
  intros Hrun Hne.
  destruct (run_inversion h tr tr' r Hrun Hne)
    as (uin & ndups & nbetween & trackitems & selectediids & H).
  destruct H as (_ & _ & _ & _ & _ & _ & _ & _ & _ & H).
  eapply run_replicate_prefix; [|exact H]. apply read_markers_ptidx.
Qed.

Lemma run_deletes_markers_first_witness :
  let h := host_of (project1 (true, "1,1") true) in
  exists rest,
    (run h []).1 = [] ++ [RPR_PreventUIRefresh 1]
                      ++ (delete_call <$> reverse (read_markers h []))
                      ++ [RPR_SelectAllMediaItems 0 false] ++ rest.
Proof.
  intros h.
  apply (run_deletes_markers_first h [] (run h []).1 (run h []).2).
  - by destruct (run h []).
  - intros Heq.
    assert (Hlen : length (run h []).1 <> 0%nat) by (by vm_compute).
    rewrite Heq in Hlen. exact (Hlen eq_refl).
Defined.

(** X18: [run] on a project without tempo / time signature markers.  When
    the host lists no marker and [run] gets past its validation, [run]
    suspends the UI refresh, unselects all items and then, if the track
    has an item, raises [IndexError] at the first item: nothing else is
    done, and the UI refresh stays suspended.  Only when the host lists no
    item for the track does it run to its end. *)
Theorem run_without_markers h tr tr' r :
  run h tr = (tr', r) ->
  CountTempoTimeSigMarkers h tr 0 <= 0 ->
  tr' <> tr ->
  exists track,
    head (selected_tracks h tr) = Some track /\
    if bool_decide (0 < CountTrackMediaItems h tr track)
    then tr' = tr ++ [RPR_PreventUIRefresh 1; RPR_SelectAllMediaItems 0 false]
         /\ r = inl IndexError
    else tr' = tr ++ [RPR_PreventUIRefresh 1; RPR_SelectAllMediaItems 0 false;
                      RPR_PreventUIRefresh (-1); RPR_UpdateArrange]
         /\ r = inr Completed.
Proof.
  intros Hrun Hnsig Hne.
  destruct (run_inversion h tr tr' r Hrun Hne)
    as (uin & ndups & nbetween & trackitems & selectediids & H).
  destruct H as (_ & _ & _ & _ & _ & Hsize & Hlists & Hnil & Hlen & H).
  rewrite (Hnil Hnsig) in H, Hlists.
  rewrite run_replicate_no_markers in H by done.
  destruct (selected_tracks h tr) as [|track tracks]; [done|].
  exists track. split; [done|].
  specialize (Hlen track eq_refl).
  destruct (decide (0 < CountTrackMediaItems h tr track)) as [Hcount|Hcount].
  - rewrite (bool_decide_eq_true_2 _ Hcount).
    rewrite bool_decide_eq_false_2 in H; [by inv_M|].
    intros ->. simpl in Hlen. lia.
  - rewrite (bool_decide_eq_false_2 _ Hcount).
    rewrite bool_decide_eq_true_2 in H; [by inv_M|].
    apply length_zero_iff_nil. lia.
Qed.

Lemma run_without_markers_witness :
  let h := host_of project_no_markers in
  (run h []).1 = [] ++ [RPR_PreventUIRefresh 1;
                        RPR_SelectAllMediaItems 0 false] /\
  (run h []).2 = inl IndexError.
Proof.
  intros h.
  destruct (run_without_markers h [] (run h []).1 (run h []).2)
    as (track & Htrack & H).
  - by destruct (run h []).
  - by vm_compute.
  - intros Heq.
    assert (Hlen : length (run h []).1 <> 0%nat) by (by vm_compute).
    rewrite Heq in Hlen. exact (Hlen eq_refl).
  - assert (Ht : head (selected_tracks h []) = Some 1) by (by vm_compute).
    rewrite Ht in Htrack. injection Htrack as Htrack. subst track.
    assert (Hb : bool_decide (0 < CountTrackMediaItems h [] 1) = true)
      by (by vm_compute).
    rewrite Hb in H. exact H.
Defined.

(** ** Strings: [split], [join], [strip] and [int] *)

Section Strings.
Import PTKutils.

Lemma split_comma_not_nil s : split_comma s <> [].
Proof.
  destruct s as [|a s]; [done|]. simpl.
  case_bool_decide; [done|]. by destruct (split_comma s).
Qed.

Lemma join_comma_cons x y l :
  join_comma (x :: y :: l) = x +:+ "," +:+ join_comma (y :: l).
Proof. done. Qed.

Lemma join_split_comma s : join_comma (split_comma s) = s.
Proof.
  induction s as [|a s IH]; [done|]. simpl.
  case_bool_decide as Ha.
  - subst a. pose proof (split_comma_not_nil s) as Hne.
    destruct (split_comma s) as [|y l]; [done|].
    rewrite join_comma_cons, IH. done.
  - pose proof (split_comma_not_nil s) as Hne.
    destruct (split_comma s) as [|y l]; [done|].
    destruct l as [|z l].
    + simpl in *. by rewrite IH.
    + rewrite join_comma_cons in *. simpl. by rewrite <- IH.
Qed.

Lemma split_comma_comma_free x :
  Forall (fun a => a <> ","%char) (String.list_ascii_of_string x) ->
  split_comma x = [x].
Proof.
  induction x as [|a x IH]; [done|]. simpl.
  intros [Ha Hx]%Forall_cons. rewrite bool_decide_eq_false_2 by done.
  by rewrite (IH Hx).
Qed.

Lemma split_comma_app x s :
  Forall (fun a => a <> ","%char) (String.list_ascii_of_string x) ->
  split_comma (x +:+ "," +:+ s) = x :: split_comma s.
Proof.
  induction x as [|a x IH]; [done|]. simpl.
  intros [Ha Hx]%Forall_cons. rewrite bool_decide_eq_false_2 by done.
  by rewrite (IH Hx).
Qed.

Lemma split_join_comma l :
  l <> [] ->
  Forall (fun x => Forall (fun a => a <> ","%char) (String.list_ascii_of_string x))
    l ->
  split_comma (join_comma l) = l.
Proof.
  intros Hne Hl. induction Hl as [|x l Hx Hl IH]; [done|].
  destruct l as [|y l].
  - simpl. by apply split_comma_comma_free.
  - rewrite join_comma_cons, split_comma_app by done.
    by rewrite IH.
Qed.

Lemma rev_app_rev_app s1 s2 s3 :
  String.rev_app (String.rev_app s1 s2) s3 = String.rev_app s2 (s1 +:+ s3).
Proof.
  revert s2. induction s1 as [|a s1 IH]; intros s2; [done|].
  simpl. by rewrite IH.
Qed.

Lemma string_app_empty_r s : s +:+ "" = s.
Proof.
  induction s as [|a s IH]; [done|].
  change (String a (s +:+ "") = String a s). by rewrite IH.
Qed.

Lemma rev_involutive s : String.rev (String.rev s) = s.
Proof.
  unfold String.rev. by rewrite rev_app_rev_app, string_app_empty_r.
Qed.

Lemma Forall_rev_app (P : ascii -> Prop) s1 s2 :
  Forall P (String.list_ascii_of_string s1) -> Forall P (String.list_ascii_of_string s2) ->
  Forall P (String.list_ascii_of_string (String.rev_app s1 s2)).
Proof.
  revert s2. induction s1 as [|a s1 IH]; intros s2 H1 H2; [done|].
  simpl in *. apply Forall_cons in H1 as [Ha H1].
  apply IH; [done|]. by constructor.
Qed.

Lemma lstrip_no_space s :
  Forall (fun a => is_space a = false) (String.list_ascii_of_string s) ->
  lstrip s = s.
Proof.
  destruct s as [|a s]; [done|]. simpl.
  intros [Ha _]%Forall_cons. by rewrite Ha.
Qed.

Lemma strip_no_space s :
  Forall (fun a => is_space a = false) (String.list_ascii_of_string s) ->
  strip s = s.
Proof.
  intros Hs. unfold strip. rewrite (lstrip_no_space s Hs).
  rewrite lstrip_no_space; [apply rev_involutive|].
  apply Forall_rev_app; [done|constructor].
Qed.

Lemma digit_pretty_N_char m :
  (m < 10)%N -> digit (pretty_N_char m) = Some (Z.of_N m).
Proof.
  intros Hm.
  assert (m = 0 \/ m = 1 \/ m = 2 \/ m = 3 \/ m = 4 \/ m = 5 \/ m = 6
          \/ m = 7 \/ m = 8 \/ m = 9)%N as Hcases by lia.
  repeat (destruct Hcases as [->|Hcases]; [done|]). by subst m.
Qed.

Lemma digits_pretty_N_go x s :
  digits 0 (pretty_N_go x s) = digits (Z.of_N x) s.
Proof.
  revert s. induction (N.lt_wf_0 x) as [x _ IH]; intros s.
  assert (x = 0 \/ 0 < x)%N as [->|Hx] by lia; [done|].
  rewrite pretty_N_go_step by done.
  rewrite IH by (by apply N.div_lt).
  cbn [digits]. rewrite digit_pretty_N_char by (by apply N.mod_lt).
  f_equal. rewrite (N.div_mod x 10) at 3 by done. lia.
Qed.

Lemma digits_is_digit acc s v :
  digits acc s = Some v ->
  Forall (fun a => is_Some (digit a)) (String.list_ascii_of_string s).
Proof.
  revert acc. induction s as [|a s IH]; intros acc; [constructor|].
  simpl. destruct (digit a) as [d|] eqn:Hd; [|done].
  intros H. constructor; [by rewrite Hd|by eapply IH].
Qed.

Lemma digit_not_space a : is_Some (digit a) -> is_space a = false.
Proof.
  intros [d Hd]. unfold is_space. apply bool_decide_eq_false_2.
  intros Ha. repeat (apply elem_of_cons in Ha as [->|Ha]; [done|]).
  by apply elem_of_nil in Ha.
Qed.

Lemma digit_not_comma a : is_Some (digit a) -> a <> ","%char.
Proof. by intros [d Hd] ->. Qed.

(** [int] on a string of digits that is not empty. *)
Lemma int_digits s v :
  s <> "" -> digits 0 s = Some v -> int s = Some v.
Proof.
  intros Hne Hs. unfold int. rewrite strip_no_space.
  - destruct s as [|a s]; [done|].
    simpl in Hs. destruct (digit a) as [d|] eqn:Hd; [|done].
    destruct a as [[] [] [] [] [] [] [] []]; vm_compute in Hd;
      try discriminate Hd; injection Hd as <-; exact Hs.
  - eapply Forall_impl; [by eapply digits_is_digit|].
    intros a. apply digit_not_space.
Qed.

Lemma pretty_pos_digits p :
  digits 0 (pretty (N.pos p)) = Some (Z.pos p) /\ pretty (N.pos p) <> "".
Proof.
  assert (H : digits 0 (pretty (N.pos p)) = Some (Z.pos p)).
  { unfold pretty, pretty_N. rewrite decide_False by done.
    by rewrite digits_pretty_N_go. }
  split; [done|]. intros Heq. by rewrite Heq in H.
Qed.

Lemma int_pretty_Z (z : Z) : int (pretty z) = Some z.
Proof.
  destruct z as [|p|p].
  - done.
  - destruct (pretty_pos_digits p) as [Hd Hne].
    by apply int_digits.
  - destruct (pretty_pos_digits p) as [Hd Hne].
    change (pretty (Z.neg p)) with (String "-" (pretty (N.pos p))).
    unfold int. rewrite strip_no_space.
    + destruct (pretty (N.pos p)) as [|a s]; [done|]. by rewrite Hd.
    + constructor; [done|].
      eapply Forall_impl; [by eapply digits_is_digit|].
      intros a. apply digit_not_space.
Qed.

Lemma pretty_Z_comma_free (z : Z) :
  Forall (fun a => a <> ","%char) (String.list_ascii_of_string (pretty z)).
Proof.
  destruct z as [|p|p].
  - by repeat constructor.
  - destruct (pretty_pos_digits p) as [Hd _].
    eapply Forall_impl; [by eapply digits_is_digit|].
    intros a. apply digit_not_comma.
  - destruct (pretty_pos_digits p) as [Hd _].
    change (pretty (Z.neg p)) with (String "-" (pretty (N.pos p))).
    constructor; [done|].
    eapply Forall_impl; [by eapply digits_is_digit|].
    intros a. apply digit_not_comma.
Qed.

End Strings.

(** ** The map of [userInputs] *)

Section Inputs.
Import PTKutils.


Lemma get_cons (m : Map) n v key :
  get ((n, v) :: m) key = if bool_decide (n = key) then Some v else get m key.
Proof.
  unfold get. rewrite (filter_cons (fun kv : string * Z => kv.1 = key)).
  cbn [fst].
  case_bool_decide; [rewrite decide_True by done|rewrite decide_False by done];
    done.
Qed.



Lemma get_NoDup (m : Map) n v :
  NoDup m.*1 -> (n, v) ∈ m -> get m n = Some v.
Proof.
  induction m as [|[n' x] m IH]; [by intros _ ?%elem_of_nil|].
  cbn [fmap list_fmap fst]. intros [Hn' Hnd]%NoDup_cons Hin.
  rewrite get_cons. apply elem_of_cons in Hin as [[= <- <-]|Hin].
  - by rewrite bool_decide_eq_true_2.
  - rewrite bool_decide_eq_false_2; [by apply IH|].
    intros ->. apply Hn'. apply list_elem_of_fmap. by exists (n, v).
Qed.

Lemma setitem_not_in (m : Map) key v : key ∉ m.*1 -> setitem m key v = m.
Proof.
  intros Hnot. unfold setitem.
  rewrite <- (list_fmap_id m) at 2. apply list_fmap_ext.
  intros i [n x] Hi. simpl. rewrite bool_decide_eq_false_2; [done|].
  intros ->. apply Hnot. apply list_elem_of_fmap. exists (key, x).
  split; [done|]. by eapply list_elem_of_lookup_2.
Qed.

Lemma setitem_middle (pre rest : Map) n v v' :
  NoDup (pre ++ (n, v) :: rest).*1 ->
  setitem (pre ++ (n, v) :: rest) n v' = pre ++ (n, v') :: rest.
Proof.
  rewrite fmap_app. cbn [fmap list_fmap fst].
  intros (Hpre & Hdisj & [Hn Hrest]%NoDup_cons)%NoDup_app.
  change (setitem (pre ++ (n, v) :: rest) n v')
    with ((fun kv : string * Z =>
             if bool_decide (kv.1 = n) then (n, v') else kv)
            <$> (pre ++ (n, v) :: rest)).
  rewrite fmap_app. cbn [fmap list_fmap fst].
  rewrite bool_decide_eq_true_2 by done. f_equal; [|f_equal].
  - apply (setitem_not_in pre n v'). intros Hin.
    apply (Hdisj n Hin). by left.
  - by apply (setitem_not_in rest n v').
Qed.

Lemma convert_read_fields (pre rest : Map) fields :
  NoDup (pre ++ rest).*1 ->
  convert (pre ++ rest) (zip rest.*1 fields)
  = match read_fields rest fields with
    | Some m => Map_ (pre ++ m)
    | None => False_
    end.
Proof.
  revert pre fields. induction rest as [|[n v] rest IH]; intros pre fields Hnd.
  - by destruct fields.
  - destruct fields as [|s fields]; [done|].
    cbn [fmap list_fmap fst zip zip_with convert read_fields].
    destruct (int s) as [v'|]; [|done].
    rewrite setitem_middle by done.
    rewrite (cons_middle (n, v') pre rest), (assoc_L (++)).
    rewrite IH.
    + destruct (read_fields rest fields) as [m|]; [|done].
      simpl. by rewrite <- (assoc_L (++)).
    + rewrite <- (assoc_L (++)). simpl.
      by rewrite !fmap_app in *.
Qed.

Section Dialog.
Context (h : Host).

Lemma userInputs_eq title (items : Map) tr :
  NoDup items.*1 ->
  userInputs h title items tr
  = (tr, inr (let answer := dialog h title items tr in
              if negb answer.1 then None_
              else match read_fields items (split_comma answer.2) with
                   | Some m => Map_ m
                   | None => False_
                   end)).
Proof.
  intros Hnd. unfold userInputs, bind, ask. cbv zeta.
  destruct (negb (dialog h title items tr).1); [done|].
  unfold ret. by rewrite (convert_read_fields [] items).
Qed.

Lemma read_fields_pretty (items : Map) :
  read_fields items (pretty <$> items.*2) = Some items.
Proof.
  induction items as [|[n v] items IH]; [done|].
  change (read_fields ((n, v) :: items) (pretty <$> ((n, v) :: items).*2))
    with (match int (pretty v) with
          | Some v' =>
              cons (n, v') <$> read_fields items (pretty <$> items.*2)
          | None => None
          end).
  by rewrite int_pretty_Z, IH.
Qed.

Lemma dialog_defaults (items : Map) :
  NoDup items.*1 ->
  (fun n => pretty (default 0 (get items n))) <$> items.*1
  = pretty <$> items.*2.
Proof.
  intros Hnd. rewrite <- !list_fmap_compose. apply list_fmap_ext.
  intros i [n v] Hi. simpl.
  by rewrite (get_NoDup items n v Hnd (list_elem_of_lookup_2 _ _ _ Hi)).
Qed.

(** X23: accepting the dialog as it is shown.  When the host returns the
    default values it was given, [userInputs] returns the items unchanged:
    the decimal notation of the defaults, joined with commas, is split and
    read back to the same integers. *)
Theorem userInputs_defaults_unchanged title (items : Map) tr :
  NoDup items.*1 ->
  (forall num_inputs captions_csv retvals_csv retvals_csv_sz,
     GetUserInputs h tr title num_inputs captions_csv retvals_csv
       retvals_csv_sz = (true, retvals_csv)) ->
  userInputs h title items tr = (tr, inr (Map_ items)).
Proof.
  intros Hnd Hecho. rewrite userInputs_eq by done. cbv zeta.
  unfold dialog. rewrite Hecho. cbn [fst snd negb].
  rewrite dialog_defaults by done.
  destruct items as [|[n v] items]; [done|].
  rewrite split_join_comma.
  - by rewrite read_fields_pretty.
  - done.
  - apply Forall_fmap, Forall_forall. intros z _.
    apply pretty_Z_comma_free.
Qed.

End Dialog.
End Inputs.

(** X19: [s.split(',')] and [','.join(l)] are inverse to each other:
    joining the fields of a string gives the string back, and splitting
    the fields joined gives the fields back when there is at least one and
    none holds a comma.  A string always has at least one field. *)
Theorem split_join_round_trip :
  (forall s, PTKutils.split_comma s <> [] /\
             PTKutils.join_comma (PTKutils.split_comma s) = s) /\
  (forall l,
     l <> [] ->
     Forall (fun x => Forall (fun a => a <> ","%char)
                        (String.list_ascii_of_string x)) l ->
     PTKutils.split_comma (PTKutils.join_comma l) = l).
Proof.
  split.
  - intros s. split; [apply split_comma_not_nil|apply join_split_comma].
  - apply split_join_comma.
Qed.

Lemma split_join_round_trip_witness :
  PTKutils.split_comma (PTKutils.join_comma ["2"; ""; "-1"])
  = ["2"; ""; "-1"].
Proof.
  destruct split_join_round_trip as [_ H]. apply H; [done|].
  repeat constructor; by intros [=].
Defined.

(** X20: a default value shown in the dialog reads back as itself:
    converting the decimal notation of an integer with [int] gives this
    integer. *)
Theorem int_of_pretty (z : Z) : PTKutils.int (pretty z) = Some z.
Proof. apply int_pretty_Z. Qed.



(** X22: what [userInputs] returns, for items with distinct names.  It
    makes no call that changes the project.  When the dialog is cancelled
    it returns [None].  Otherwise the value string is split at its commas
    and the fields are read by position: the [i]-th field is converted
    with [int] and stored under the [i]-th name; names without a field keep
    their default value and fields without a name are ignored; if a field
    that is read cannot be converted, the result is [False]. *)
Theorem userInputs_reads_fields h title (items : PTKutils.Map) tr :
  NoDup items.*1 ->
  PTKutils.userInputs h title items tr
  = (tr, inr (let answer := PTKutils.dialog h title items tr in
              if negb answer.1 then PTKutils.None_
              else match read_fields items (PTKutils.split_comma answer.2)
                   with
                   | Some m => PTKutils.Map_ m
                   | None => PTKutils.False_
                   end)).
Proof. apply userInputs_eq. Qed.

Lemma userInputs_reads_fields_witness :
  let h := host_of (project1 (true, " 3 ") true) in
  PTKutils.userInputs h "Parameters" [("ndups", 1); ("nbetween", 1)] []
  = ([], inr (PTKutils.Map_ [("ndups", 3); ("nbetween", 1)])).
Proof.
  intros h.
  rewrite (userInputs_reads_fields h "Parameters"
             [("ndups", 1); ("nbetween", 1)] []).
  - by vm_compute.
  - apply (bool_decide_unpack _). by vm_compute.
Defined.

Lemma userInputs_defaults_unchanged_witness :
  PTKutils.userInputs echo_host "Parameters"
    [("ndups", 1); ("nbetween", -2)] []
  = ([], inr (PTKutils.Map_ [("ndups", 1); ("nbetween", -2)])).
Proof.
  apply userInputs_defaults_unchanged.
  - apply (bool_decide_unpack _). by vm_compute.
  - done.
Defined.

(** ** [removeRedundantSigs] *)

Section RemoveRedundantSigs.
Context (h : Host).

Lemma remove_redundant_loop_eq (siglist : list TempoTimeSigMarkerWrapper.t)
    n tr :
  Forall (fun sig => is_Some (TempoTimeSigMarkerWrapper.ptidx sig)) siglist ->
  (n < length siglist)%nat ->
  remove_redundant_loop siglist n tr
  = (tr ++ ((fun i => delete_call (siglist !!! i))
              <$> filter (fun i => equivalentSigs (siglist !!! i)
                                     (siglist !!! (i - 1)%nat) = true)
                    (reverse (seq 1 n))),
     inr tt).
Proof.
  intros Hsigs. revert tr. induction n as [|n IH]; intros tr Hn.
  - simpl. by rewrite app_nil_r.
  - cbn [remove_redundant_loop].
    rewrite seq_S, reverse_app. cbn [reverse rev_append app Nat.add].
    rewrite filter_cons. replace (S n - 1)%nat with n by lia.
    destruct (lookup_lt_is_Some_2 siglist (S n) Hn) as [sig Hsig].
    rewrite (list_lookup_total_correct _ _ _ Hsig).
    destruct (equivalentSigs sig (siglist !!! n)) eqn:E.
    + rewrite decide_True by done.
      assert (Hp : is_Some (TempoTimeSigMarkerWrapper.ptidx sig)).
      { rewrite Forall_forall in Hsigs. apply Hsigs.
        by eapply list_elem_of_lookup_2. }
      destruct Hp as [p Hp]. unfold bind at 1.
      unfold TempoTimeSigMarkerWrapper.remove,
        TempoTimeSigMarkerWrapper.get_ptidx.
      rewrite Hp. unfold bind at 1, ret at 1, call at 1.
      rewrite IH by lia. cbn [fmap list_fmap].
      rewrite (list_lookup_total_correct _ _ _ Hsig).
      unfold delete_call at 2. rewrite Hp. cbn [default].
      by rewrite <- (assoc_L (++)).
    + rewrite decide_False by done.
      unfold bind at 1, ret at 1. by rewrite IH by lia.
Qed.

Lemma removeRedundantSigs_eq tr :
  removeRedundantSigs h tr
  = (tr ++ ((fun i => delete_call (read_markers h tr !!! i))
              <$> redundant_indices (read_markers h tr)),
     inr tt).
Proof.
  unfold removeRedundantSigs. unfold bind at 1, ask at 1.
  rewrite (bind_eq _ _ _ _ _ (run_read_markers h tr)).
  set (siglist := read_markers h tr).
  destruct (decide (length siglist = 0%nat)) as [H0|H0].
  - apply length_zero_iff_nil in H0. rewrite H0. simpl.
    by rewrite app_nil_r.
  - rewrite remove_redundant_loop_eq.
    + unfold redundant_indices.
      by replace (Z.to_nat (Z.of_nat (length siglist) - 1))
        with (length siglist - 1)%nat by lia.
    + apply read_markers_ptidx.
    + lia.
Qed.

End RemoveRedundantSigs.

Lemma elem_of_redundant_indices (l : list TempoTimeSigMarkerWrapper.t) k :
  k ∈ redundant_indices l <->
  (1 <= k < length l)%nat /\
  equivalentSigs (l !!! k) (l !!! (k - 1)%nat) = true.
Proof.
  unfold redundant_indices.
  rewrite list_elem_of_filter, elem_of_reverse, elem_of_seq.
  split; intros [? ?]; split; (done || lia).
Qed.

Lemma redundant_indices_chain (l : list TempoTimeSigMarkerWrapper.t) i d :
  (forall k, (i < k <= i + d)%nat -> k ∈ redundant_indices l) ->
  equivalentSigs (l !!! i) (l !!! (i + d)%nat) = true.
Proof.
  induction d as [|d IH]; intros Hk.
  - rewrite Nat.add_0_r. apply equivalentSigs_refl.
  - eapply equivalentSigs_trans; [apply IH; intros k Hik; apply Hk; lia|].
    destruct (proj1 (elem_of_redundant_indices l (i + S d))
                (Hk (i + S d)%nat ltac:(lia))) as [_ He].
    replace (i + S d - 1)%nat with (i + d)%nat in He by lia.
    by apply equivalentSigs_sym.
Qed.

(** X25: the markers that [removeRedundantSigs] leaves.  Two markers of
    the list that are both left, with only deleted markers between them,
    differ in tempo or time signature: after the deletions no marker is
    equivalent to the marker before it. *)
Theorem removeRedundantSigs_kept_differ (l : list TempoTimeSigMarkerWrapper.t) i j :
  (i < j < length l)%nat ->
  j ∉ redundant_indices l ->
  (forall k, (i < k < j)%nat -> k ∈ redundant_indices l) ->
  equivalentSigs (l !!! i) (l !!! j) = false.
Proof.
  intros Hij Hj Hk. apply not_true_is_false. intros He.
  apply Hj, elem_of_redundant_indices. split; [lia|].
  apply equivalentSigs_sym.
  eapply equivalentSigs_trans; [|exact He]. apply equivalentSigs_sym.
  replace (j - 1)%nat with (i + (j - 1 - i))%nat by lia.
  apply redundant_indices_chain. intros k Hik. apply Hk. lia.
Qed.

(** X24: what [removeRedundantSigs] does.  It reads the markers that the
    host lists and then makes exactly these calls: going from the last
    marker down to the second, it deletes every marker that is equivalent
    to the marker just before it in the list.  It never deletes the first
    marker, makes no other call, and raises no exception. *)
Theorem removeRedundantSigs_calls h tr :
  removeRedundantSigs h tr
  = (tr ++ ((fun i => delete_call (read_markers h tr !!! i))
              <$> redundant_indices (read_markers h tr)),
     inr tt) /\
  forall k,
    k ∈ redundant_indices (read_markers h tr) <->
    (1 <= k < length (read_markers h tr))%nat /\
    equivalentSigs (read_markers h tr !!! k)
      (read_markers h tr !!! (k - 1)%nat) = true.
Proof.
  split; [apply removeRedundantSigs_eq|].
  intros k. apply elem_of_redundant_indices.
Qed.

Lemma removeRedundantSigs_kept_differ_witness :
  let l := [sig_0; sig_4; sig_5; sig_6] in
  redundant_indices l = [2%nat] /\
  equivalentSigs (l !!! 1%nat) (l !!! 3%nat) = false.
Proof.
  intros l.
  assert (HR : redundant_indices l = [2%nat]) by (by vm_compute).
  split; [exact HR|].
  apply (removeRedundantSigs_kept_differ l 1 3).
  - simpl. lia.
  - rewrite HR. intros Hin%list_elem_of_singleton. lia.
  - intros k Hk. assert (k = 2%nat) as -> by lia. rewrite HR. by left.
Defined.

(** ** The calls and the cursor of [run] *)

Lemma silent_emits {A} (P : HostCall -> Prop) (c : M A) :
  silent c -> emits P c.
Proof.
  intros Hc%emits_silent. eapply emits_mono; [|exact Hc]. by intros ? [].
Qed.

Section RunOnlyCalls.
Context (h : Host).

Lemma replicate_emits_run_call item t0 ndups nbetween :
  emits run_call (MediaItemReplicator.replicate h item t0 ndups nbetween).
Proof.
  eapply emits_mono; [|apply replicate_emits_own].
  intros [] Hc; simpl in *; try done; tauto.
Qed.

Lemma run_replicate_emits siglist trackitems selectediids ndups nbetween :
  emits run_call
    (run_replicate h siglist trackitems selectediids ndups nbetween).
Proof.
  unfold run_replicate.
  apply emits_bind; [apply emits_call; by left|]. intros [].
  apply emits_bind.
  { apply emits_for_each. intros sig [].
    unfold TempoTimeSigMarkerWrapper.remove,
      TempoTimeSigMarkerWrapper.get_ptidx.
    repeat emits_step. by apply emits_call. }
  intros []. apply emits_bind; [by apply emits_call|]. intros [].
  apply emits_bind.
  { apply emits_for_each. intros item [endt d].
    apply emits_bind; [|intros [? ?]; apply emits_ret].
    destruct (bool_decide _); apply replicate_emits_run_call. }
  intros [endt d]. apply emits_bind.
  { apply emits_for_each. intros t_ [].
    unfold TempoTimeSigMarkerWrapper.create.
    repeat emits_step. by apply emits_call. }
  intros []. apply emits_bind; [apply emits_call; by right|]. intros [].
  apply emits_bind; [by apply emits_call|]. intros []. apply emits_ret.
Qed.

Lemma run_gather_emits ndups nbetween :
  emits run_call (run_gather h ndups nbetween).
Proof.
  unfold run_gather.
  apply emits_bind; [apply emits_ask|]. intros nsig.
  apply emits_bind.
  { apply silent_emits, for_list_silent.
    intros sigid Hsigid%elem_of_py_range. by apply wrapper_init_silent. }
  intros siglist.
  apply emits_bind; [apply emits_ask|]. intros nitems.
  apply emits_bind.
  { apply silent_emits, for_list_silent. intros. apply init_silent. }
  intros items.
  apply emits_bind.
  { apply emits_for_list. intros i. apply emits_ask. }
  intros tracks.
  destruct (negb _); [apply emits_ret|].
  apply emits_bind; [destruct tracks; [apply emits_raise|apply emits_ret]|].
  intros track.
  apply emits_bind; [apply emits_ask|]. intros ntrackitems.
  apply emits_bind.
  { apply emits_for_list. intros titemid.
    apply emits_bind; [apply emits_ask|]. intros itemref.
    apply silent_emits, init_silent. }
  intros trackitems. apply run_replicate_emits.
Qed.

Lemma run_emits : emits run_call (run h).
Proof.
  unfold run.
  apply emits_bind; [apply silent_emits, userInputs_silent|].
  intros [| |uin]; try apply emits_ret.
  destruct (PTKutils.get uin "ndups") as [ndups|]; [|apply emits_ret].
  destruct (bool_decide _); [apply emits_ret|].
  destruct (PTKutils.get uin "nbetween") as [nbetween|]; [|apply emits_ret].
  destruct (bool_decide _); [apply emits_ret|].
  apply run_gather_emits.
Qed.


(** [run_replicate] runs the loop [run_items] between the deletion of the
    markers and the creation of the new ones. *)
Lemma run_replicate_run_items siglist trackitems selectediids ndups nbetween :
  run_replicate h siglist trackitems selectediids ndups nbetween
  = (call (RPR_PreventUIRefresh 1);;;
     for_each (reverse siglist)
       (fun sig _ => TempoTimeSigMarkerWrapper.remove sig) tt;;;
     call (RPR_SelectAllMediaItems 0 false);;;
     state <- run_items h trackitems selectediids ndups nbetween;;
     let '(endt, incountsigd) := state in
     for_each (getNonRedundantSigTimes incountsigd)
       (fun t_ _ => TempoTimeSigMarkerWrapper.create h (incountsigd !!! t_))
       tt;;;
     call (RPR_PreventUIRefresh (-1));;;
     call RPR_UpdateArrange;;;
     ret Completed).
Proof. reflexivity. Qed.

End RunOnlyCalls.

(** X26: what [run] never does.  Whatever the host and the way [run] ends,
    every call it makes is one of: suspend or resume the UI refresh by
    one, delete a marker, unselect all items, select or unselect one item,
    set the position of an item, duplicate the selection once by a nudge
    in seconds, create a marker (index [-1]), redraw.  In particular it
    never changes an existing marker in place and never changes the length
    of an item. *)
Theorem run_only_calls h tr tr' r :
  run h tr = (tr', r) ->
  exists calls, tr' = tr ++ calls /\ Forall run_call calls.
Proof. apply run_emits. Qed.

Lemma run_only_calls_witness :
  let h := host_of (project1 (true, "1,1") true) in
  exists calls, (run h []).1 = [] ++ calls /\ Forall run_call calls.
Proof.
  intros h.
  apply (run_only_calls h [] (run h []).1 (run h []).2).
  by destruct (run h []).
Defined.



(** X28: [replicate] with a negative number of copies makes no copy: it
    does what it does for zero copies. *)
Theorem replicate_negative_copies h self t0 ndups nbetween tr :
  ndups <= 0 ->
  MediaItemReplicator.replicate h self t0 ndups nbetween tr
  = MediaItemReplicator.replicate h self t0 0 nbetween tr.
Proof.
  intros Hn. unfold MediaItemReplicator.replicate, py_range.
  by rewrite Z2Nat.nonpos.
Qed.

Lemma replicate_negative_copies_witness :
  let h := host_of (project1 (true, "2,1") true) in
  let self := item_at_4 [sig_0; sig_5; sig_6] in
  MediaItemReplicator.replicate h self f0 (-3) 1 []
  = MediaItemReplicator.replicate h self f0 0 1 [].
Proof. intros h self. apply replicate_negative_copies. lia. Defined.

